(** * Status reconciliation of a data-versioning repository

    A shallow embedding of [dvc/repo/data.py] (change classifier, SCM status
    adapter, commit comparer, path translator, status aggregator) and of the
    argument validation of [dvc/repo/imp_url.py], with the properties of the
    specification proved over it.

    Python dictionaries with string keys are [gmap string _], Python sets of
    strings are [gset string], exceptions are values of [exn] carried by the
    [result] monad, and the external collaborators (tree-diff primitive,
    object store, revision iterator, SCM backend, filesystem paths) are
    parameters or record fields holding what they return. *)

From Stdlib Require Import String Ascii List Bool Arith Lia.
From stdpp Require Import base option list strings gmap fin_maps fin_sets.

Import ListNotations.
Open Scope string_scope.
Open Scope list_scope.

(** ** Python strings *)

Module PyStr.

(** [bool(s)] for a string. *)
Definition truthy (s : string) : bool := negb (String.eqb s "").

(** [sep.join(parts)] *)
Definition join (sep : string) (parts : list string) : string :=
  String.concat sep parts.

(** [s.startswith(p)] *)
Definition startswith (s p : string) : bool := String.prefix p s.

(** [s[n:]] *)
Fixpoint drop (n : nat) (s : string) : string :=
  match n, s with
  | O, _ => s
  | S _, EmptyString => EmptyString
  | S n', String _ s' => drop n' s'
  end.

(** [s.replace(a, t)] for a one-character pattern [a]. *)
Fixpoint replace_char (a : ascii) (t : string) (s : string) : string :=
  match s with
  | EmptyString => EmptyString
  | String c s' =>
      if Ascii.eqb c a then t +:+ replace_char a t s'
      else String c (replace_char a t s')
  end.

(** Leading occurrences of [a] removed: [s.lstrip(a)]. *)
Fixpoint lstrip_char (a : ascii) (s : string) : string :=
  match s with
  | String c s' => if Ascii.eqb c a then lstrip_char a s' else s
  | EmptyString => EmptyString
  end.

(** [s.rstrip(a)] for a one-character set. *)
Definition rstrip_char (a : ascii) (s : string) : string :=
  String.rev (lstrip_char a (String.rev s)).

(** [s.split(a)] for a one-character separator: the pieces between the
    occurrences of [a], empty pieces kept. *)
Fixpoint split_go (a : ascii) (cur : string) (s : string) : list string :=
  match s with
  | EmptyString => [String.rev cur]
  | String c s' =>
      if Ascii.eqb c a then String.rev cur :: split_go a EmptyString s'
      else split_go a (String c cur) s'
  end.

Definition split (a : ascii) (s : string) : list string :=
  split_go a EmptyString s.

End PyStr.

(** ** Exceptions and results *)

(** An exception is known to the handlers by the classes it is an instance
    of (its class and the bases of that class). *)
Record exn := Exn { exn_classes : list string; exn_msg : string }.

(** [isinstance(e, cls)] *)
Definition isinstance (e : exn) (cls : string) : bool :=
  existsb (String.eqb cls) (exn_classes e).

(** [except (c1, c2, ...)] *)
Definition caught_by (classes : list string) (e : exn) : bool :=
  existsb (isinstance e) classes.

Inductive result (A : Type) : Type :=
| Ok (a : A)
| Raise (e : exn).
Arguments Ok {A} a.
Arguments Raise {A} e.

#[global] Instance result_ret : MRet result := fun A a => Ok a.

#[global] Instance result_bind : MBind result := fun A B k r =>
  match r with
  | Ok a => k a
  | Raise e => Raise e
  end.

(** ** Data model *)

(** The object store, asked only whether an object exists. Every entry of
    an index refers to one. *)
Record ODB := { odb_exists : string -> bool }.

Record Meta := { isdir : bool }.

Record HashInfo := { hash_name : option string; hash_value : option string }.

(** [bool(hash_info)] is [bool(hash_info.value)]; the value of a truthy
    hash info. *)
Definition hash_value_of (hi : option HashInfo) : option string :=
  match hi with
  | Some h =>
      match hash_value h with
      | Some v => if PyStr.truthy v then Some v else None
      | None => None
      end
  | None => None
  end.

(** [bool(hash_info)] *)
Definition hash_truthy (hi : option HashInfo) : bool :=
  match hash_value_of hi with Some _ => true | None => false end.

Record DataIndexEntry := {
  entry_key : list string;
  meta : option Meta;
  hash_info : option HashInfo;
  odb : ODB
}.

(** A snapshot: the entries of the index, in its iteration order. *)
Definition DataIndex := list DataIndexEntry.

Module Change.
Record t := Make {
  typ : string;
  old : option DataIndexEntry;
  new : option DataIndexEntry;
  key : list string
}.
End Change.

(** Modelled from the spec: the kind constants of the external package
    [dvc_data.index.diff], which the sources import and do not define.
    UNCHANGED and UNKNOWN are the literal names under which their records
    pass through [_adapt_typ]; the other three are renamed by it. *)
Definition ADD : string := "add".
Definition MODIFY : string := "modify".
Definition DELETE : string := "delete".
Definition UNCHANGED : string := "unchanged".
Definition UNKNOWN : string := "unknown".

Definition change_kinds : list string := [ADD; DELETE; MODIFY; UNCHANGED; UNKNOWN].

(** The tree-diff primitive tags each record with one of the five kinds. *)
Definition valid_typ (c : Change.t) : Prop := In (Change.typ c) change_kinds.

(** ** Change classifier *)

Definition _adapt_typ (typ : string) : string :=
  if String.eqb typ MODIFY then "modified"
  else if String.eqb typ ADD then "added"
  else if String.eqb typ DELETE then "deleted"
  else typ.

Section Classifier.

(** [os.path.sep] *)
Variable os_sep : string.

(** The tree-diff primitive
    [diff(old, new, with_unchanged, shallow, hash_only, with_unknown)]. *)
Variable diff :
  DataIndex -> DataIndex -> bool -> bool -> bool -> bool -> list Change.t.

Definition _adapt_path (change : Change.t) : string :=
  let isdir :=
    match Change.new change with
    | Some {| meta := Some m |} => isdir m
    | _ =>
        match Change.old change with
        | Some {| meta := Some m |} => isdir m
        | _ => false
        end
    end in
  let key := Change.key change in
  let key := if isdir then key ++ [""] else key in
  PyStr.join os_sep key.

(** The closure [_add_change] of [_diff], with the dictionary it updates
    passed explicitly. *)
Definition _add_change (ret : gmap string (list string))
    (typ : string) (change : Change.t) : gmap string (list string) :=
  let typ := _adapt_typ typ in
  let ret := match ret !! typ with
             | None => <[typ := []]> ret
             | Some _ => ret
             end in
  alter (fun l => l ++ [_adapt_path change]) typ ret.

(** First [continue] of the loop: an unchanged record whose two sides
    carry no hash. *)
Definition skip_unchanged_empty (change : Change.t) : bool :=
  String.eqb (Change.typ change) UNCHANGED
  && match Change.old change, Change.new change with
     | Some o, Some n =>
         negb (hash_truthy (hash_info o)) && negb (hash_truthy (hash_info n))
     | _, _ => false
     end.

(** Second [continue]: an unknown record without a new side. *)
Definition skip_unknown_gone (change : Change.t) : bool :=
  String.eqb (Change.typ change) UNKNOWN
  && match Change.new change with Some _ => false | None => true end.

(** The guard of the [not_in_cache] emission. *)
Definition missing_in_cache (with_missing : bool) (change : Change.t) : bool :=
  with_missing
  && match Change.old change with
     | Some o =>
         match hash_value_of (hash_info o) with
         | Some v => negb (odb_exists (odb o) v)
         | None => false
         end
     | None => false
     end.

(** One iteration of the loop of [_diff]. *)
Definition _diff_step (with_missing : bool)
    (ret : gmap string (list string)) (change : Change.t)
  : gmap string (list string) :=
  if skip_unchanged_empty change then ret
  else if skip_unknown_gone change then ret
  else
    let ret := if missing_in_cache with_missing change
               then _add_change ret "not_in_cache" change
               else ret in
    _add_change ret (Change.typ change) change.

Definition _diff (old new : DataIndex) (granular with_missing : bool)
  : gmap string (list string) :=
  fold_left (_diff_step with_missing)
            (diff old new true (negb granular) true true)
            ∅.

End Classifier.

(** ** Keyword arguments forwarded to [_diff] *)

(** The [**kwargs] that [status] and the two comparers forward to [_diff]:
    [granular] and [with_missing] when present (a value of [None] counts as
    [false], which is how [_diff] reads it), and the names of any other
    keyword. *)
Record DiffKwargs := {
  kw_granular : option bool;
  kw_with_missing : option bool;
  kw_other : list string
}.

Definition TypeError (msg : string) : exn :=
  Exn ["TypeError"; "Exception"; "BaseException"] msg.

Definition UnboundLocalError (msg : string) : exn :=
  Exn ["UnboundLocalError"; "NameError"; "Exception"; "BaseException"] msg.

(** ** SCM status adapter *)

Record GitBackend := {
  git_root_dir : string;
  (** [scm.get_rev()] *)
  get_rev : result string;
  (** [scm.status(untracked_files=...)] *)
  git_status :
    string -> result (gmap string (list string) * gmap string (list string) * list string)
}.

Inductive SCM :=
| NoSCM (root : string)
| Git (backend : GitBackend).

Definition scm_root_dir (scm : SCM) : string :=
  match scm with
  | NoSCM root => root
  | Git backend => git_root_dir backend
  end.

Record GitInfo := {
  staged : gmap string (list string);
  unstaged : gmap string (list string);
  untracked : list string;
  is_empty : bool;
  is_dirty : bool
}.

(** Truthiness of a dictionary and of a list. *)
Definition dict_truthy (m : gmap string (list string)) : bool :=
  negb (bool_decide (m = ∅)).

Definition list_truthy {A} (l : list A) : bool :=
  match l with [] => false | _ :: _ => true end.

(** ** Repository handle *)

Record Repo := {
  root_dir : string;
  scm : SCM;
  (** [repo.index.data["repo"]] in the workspace state *)
  index_data_repo : DataIndex;
  (** [build_data_index(repo.index, repo.root_dir, repo.fs, compute_hash=True)]:
      the snapshot of the working tree, or the exception of the build *)
  build_data_index : result DataIndex;
  (** [repo.brancher(revs=...)]: the states it yields, each with the label
      of the revision and [repo.index.data["repo"]] as it is while that
      state is current, and the exception that ends the iteration, if any. *)
  brancher : list string -> list (string * DataIndex) * option exn;
  (** [repo.fs.path.relpath(path, start)] *)
  fs_relpath : string -> string -> result string;
  (** [repo.fs.path.getcwd()] *)
  fs_getcwd : string
}.

Record Status := {
  st_not_in_cache : list string;
  st_committed : gmap string (list string);
  st_uncommitted : gmap string (list string);
  st_untracked : list string;
  st_unchanged : list string;
  st_git : option GitInfo
}.

(** [os.curdir] *)
Definition os_curdir : string := ".".

(** [f] over [xs] in order, stopping at the first exception. *)
Fixpoint mapM_result {A B} (f : A -> result B) (xs : list A) : result (list B) :=
  match xs with
  | [] => Ok []
  | x :: xs' => y ← f x; ys ← mapM_result f xs'; Ok (y :: ys)
  end.

Section Program.

(** [os.path.sep] (also [os.sep]) and [os.name]. *)
Variable os_sep : string.
Variable os_name : string.

Variable diff :
  DataIndex -> DataIndex -> bool -> bool -> bool -> bool -> list Change.t.

Definition posixpath_to_os_path (path : string) : string :=
  PyStr.replace_char "/"%char os_sep path.

(** [GitInfo] is a dictionary in the source; the empty one, returned when no
    SCM backend is configured, is [None] here. *)
Definition _git_info (scm : SCM) (untracked_files : string)
  : result (option GitInfo) :=
  match scm with
  | NoSCM _ => Ok None
  | Git backend =>
      empty_repo ←
        match get_rev backend with
        | Raise e =>
            if isinstance e "scmrepo.exceptions.SCMError" then Ok true
            else Raise e
        | Ok _ => Ok false
        end;
      '(staged, unstaged, untracked) ← git_status backend untracked_files;
      let untracked :=
        if String.eqb os_name "nt" then map posixpath_to_os_path untracked
        else untracked in
      Ok (Some {| staged := staged;
                  unstaged := unstaged;
                  untracked := untracked;
                  is_empty := empty_repo;
                  is_dirty := dict_truthy staged || dict_truthy unstaged
                              || list_truthy untracked |})
  end.

(** The call [_diff(old, new, with_missing=fixed, **kwargs)] (or without
    the fixed keyword): Python's binding of the keywords, then the body. *)
Definition call_diff (old new : DataIndex) (fixed : option bool)
    (kwargs : DiffKwargs) : result (gmap string (list string)) :=
  match fixed, kw_with_missing kwargs with
  | Some _, Some _ =>
      Raise (TypeError "got multiple values for keyword argument 'with_missing'")
  | _, _ =>
      match kw_other kwargs with
      | _ :: _ => Raise (TypeError "_diff() got an unexpected keyword argument")
      | [] =>
          let granular := default false (kw_granular kwargs) in
          let with_missing :=
            match fixed, kw_with_missing kwargs with
            | Some b, _ => b
            | None, Some b => b
            | None, None => false
            end in
          Ok (_diff os_sep diff old new granular with_missing)
      end
  end.

Definition _diff_index_to_wtree (repo : Repo) (kwargs : DiffKwargs)
  : result (gmap string (list string)) :=
  workspace ← build_data_index repo;
  call_diff (index_data_repo repo) workspace (Some true) kwargs.

(** The loop of [_diff_head_to_index]: the local [head_index] after the
    states seen so far ([None] while it is unbound). *)
Definition head_index_after (states : list (string * DataIndex))
  : option DataIndex :=
  fold_left
    (fun head_index '(rev, index_at_rev) =>
       if String.eqb rev "workspace" then head_index
       else Some index_at_rev)
    states None.

Definition _diff_head_to_index (repo : Repo) (head : string)
    (kwargs : DiffKwargs) : result (gmap string (list string)) :=
  let index := index_data_repo repo in
  let '(states, failure) := brancher repo [head] in
  match failure with
  | Some e => Raise e
  | None =>
      match head_index_after states with
      | None =>
          Raise (UnboundLocalError
                   "local variable 'head_index' referenced before assignment")
      | Some head_index => call_diff head_index index None kwargs
      end
  end.

(** ** Path translator *)

Definition is_curdir_or_empty (p : string) : bool :=
  String.eqb p os_curdir || String.eqb p "".

Definition _transform_git_paths_to_dvc (repo : Repo) (files : list string)
  : result (list string) :=
  rel ← fs_relpath repo (root_dir repo) (scm_root_dir (scm repo));
  let rel := PyStr.rstrip_char "/"%char rel in
  let files :=
    if negb (is_curdir_or_empty rel) then
      let prefix := rel +:+ os_sep in
      let length := String.length prefix in
      map (PyStr.drop length)
          (List.filter (fun file => PyStr.startswith file prefix) files)
    else files in
  start ← fs_relpath repo (fs_getcwd repo) (root_dir repo);
  if is_curdir_or_empty start then Ok files
  else mapM_result (fun file => fs_relpath repo file start) files.

(** ** Status aggregator *)

(** [d.pop(k, [])]: the value and the dictionary without the key. *)
Definition pop_list (k : string) (d : gmap string (list string))
  : list string * gmap string (list string) :=
  (default [] (d !! k), delete k d).

(** The [try] / [except (SCMError, NoSCMError)] / [else] of [status]: the
    committed diff and the set of unchanged paths after it. *)
Definition committed_and_unchanged
    (attempt : result (gmap string (list string))) (unchanged : gset string)
  : result (gmap string (list string) * gset string) :=
  match attempt with
  | Raise e =>
      if caught_by ["dvc.scm.SCMError"; "dvc.scm.NoSCMError"] e
      then Ok (∅, unchanged)
      else Raise e
  | Ok committed_diff =>
      let '(l, committed_diff) := pop_list "unchanged" committed_diff in
      Ok (committed_diff, unchanged ∩ list_to_set l)
  end.

(** [head] is the keyword [head] of the call when it is given; [kwargs]
    are the other keywords. *)
Definition status (repo : Repo) (untracked_files : string)
    (head : option string) (kwargs : DiffKwargs) : result Status :=
  let head := default "HEAD" head in
  uncommitted_diff ← _diff_index_to_wtree repo kwargs;
  let '(not_in_cache, uncommitted_diff) :=
    pop_list "not_in_cache" uncommitted_diff in
  let '(l, uncommitted_diff) := pop_list "unchanged" uncommitted_diff in
  let unchanged : gset string := list_to_set l in
  '(committed_diff, unchanged) ←
    committed_and_unchanged (_diff_head_to_index repo head kwargs) unchanged;
  git_info ← _git_info (scm repo) untracked_files;
  let untracked := match git_info with
                   | Some g => untracked g
                   | None => []
                   end in
  untracked ← _transform_git_paths_to_dvc repo untracked;
  Ok {| st_not_in_cache := not_in_cache;
        st_committed := committed_diff;
        st_uncommitted := uncommitted_diff;
        st_untracked := untracked;
        st_unchanged := elements unchanged;
        st_git := git_info |}.

End Program.

(** ** POSIX path arithmetic

    The functions of Python's [posixpath] that [repo.fs.path.relpath] comes
    down to on a POSIX host, with the process's current directory passed
    explicitly. *)

Module posixpath.

Definition sep : string := "/".
Definition curdir : string := ".".
Definition pardir : string := "..".

Definition endswith (s p : string) : bool :=
  String.prefix (String.rev p) (String.rev s).

Definition isabs (s : string) : bool := PyStr.startswith s sep.

(** [join(a, b)] *)
Definition join (a b : string) : string :=
  if PyStr.startswith b sep then b
  else if String.eqb a "" || endswith a sep then a +:+ b
  else a +:+ sep +:+ b.

(** One step of the loop of [normpath] over the components. *)
Definition normpath_step (initial_slashes : nat)
    (new_comps : list string) (comp : string) : list string :=
  if String.eqb comp "" || String.eqb comp "." then new_comps
  else if negb (String.eqb comp "..")
          || (Nat.eqb initial_slashes 0 && negb (list_truthy new_comps))
          || match last new_comps with
             | Some c => String.eqb c ".."
             | None => false
             end
       then new_comps ++ [comp]
       else removelast new_comps.

Definition normpath (path : string) : string :=
  if String.eqb path "" then "."
  else
    let initial_slashes :=
      if PyStr.startswith path "/" then
        if PyStr.startswith path "//" && negb (PyStr.startswith path "///")
        then 2 else 1
      else 0 in
    let comps := PyStr.split "/"%char path in
    let comps := fold_left (normpath_step initial_slashes) comps [] in
    let path := PyStr.join "/" comps in
    let path := String.concat "" (repeat "/" initial_slashes) +:+ path in
    if PyStr.truthy path then path else ".".

Definition abspath (cwd path : string) : string :=
  normpath (if isabs path then path else join cwd path).

(** Length of the longest common prefix of two component lists. *)
Fixpoint commonprefix_len (a b : list string) : nat :=
  match a, b with
  | x :: a', y :: b' => if String.eqb x y then S (commonprefix_len a' b') else 0
  | _, _ => 0
  end.

Definition ValueError (msg : string) : exn :=
  Exn ["ValueError"; "Exception"; "BaseException"] msg.

Definition relpath (cwd : string) (path start : string) : result string :=
  if negb (PyStr.truthy path) then Raise (ValueError "no path specified")
  else
    let start_list :=
      List.filter PyStr.truthy (PyStr.split "/"%char (abspath cwd start)) in
    let path_list :=
      List.filter PyStr.truthy (PyStr.split "/"%char (abspath cwd path)) in
    let i := commonprefix_len start_list path_list in
    let rel_list := repeat pardir (length start_list - i) ++ skipn i path_list in
    match rel_list with
    | [] => Ok curdir
    | first :: rest => Ok (fold_left join rest first)
    end.

End posixpath.

(** ** A reference tree-diff primitive *)

#[global] Instance HashInfo_eq_dec : EqDecision HashInfo.
Proof. solve_decision. Defined.

Definition find_entry (k : list string) (index : DataIndex)
  : option DataIndexEntry :=
  List.find (fun e => bool_decide (entry_key e = k)) index.

Definition entry_isdir (e : DataIndexEntry) : bool :=
  match meta e with Some m => isdir m | None => false end.

(** [e] lies strictly below a directory entry of [index]. *)
Definition below_dir (index : DataIndex) (e : DataIndexEntry) : bool :=
  existsb
    (fun d =>
       entry_isdir d
       && bool_decide (entry_key d `prefix_of` entry_key e)
       && negb (bool_decide (entry_key d = entry_key e)))
    index.

Definition visible (shallow : bool) (index : DataIndex) : DataIndex :=
  if shallow then List.filter (fun e => negb (below_dir index e)) index
  else index.

(** Modelled from the spec: the tree-diff primitive of the external package
    [dvc_data.index.diff], of which the sources hold only the call. It
    follows the contract of the specification: one record per key of either
    snapshot, tagged with exactly one kind, deterministic, hashes compared
    only ([hash_only]); with [shallow] the entries below a directory entry
    are not visited. It reports no UNKNOWN record. *)
Definition diff_model (old new : DataIndex)
    (with_unchanged shallow hash_only with_unknown : bool) : list Change.t :=
  let olds := visible shallow old in
  let news := visible shallow new in
  flat_map
    (fun o =>
       match find_entry (entry_key o) news with
       | Some n =>
           if bool_decide (hash_info o = hash_info n) then
             if with_unchanged
             then [Change.Make UNCHANGED (Some o) (Some n) (entry_key o)]
             else []
           else [Change.Make MODIFY (Some o) (Some n) (entry_key o)]
       | None => [Change.Make DELETE (Some o) None (entry_key o)]
       end)
    olds
  ++ flat_map
       (fun n =>
          match find_entry (entry_key n) olds with
          | Some _ => []
          | None => [Change.Make ADD None (Some n) (entry_key n)]
          end)
       news.

(** ** [imp_url]

    The body of [Repo.imp_url]. What it does to stages is recorded in a log
    of events, threaded through the calls together with the exception
    raised, if any. The decorators [locked] and [scm_context] that wrap the
    body are defined elsewhere and are not part of it. *)

(** [OutputDuplicationError] of [dvc.exceptions]. *)
Definition OutputDuplicationError (msg : string) : exn :=
  Exn ["dvc.exceptions.OutputDuplicationError"; "dvc.exceptions.DvcException";
       "Exception"; "BaseException"] msg.

Module ImpUrl.

Inductive Event :=
| StageCreate (fname wdir dep out : string)
| AnnotUpdate
| CheckGraph
| IgnoreOuts
| Transfer (url : string) (remote : option string)
| SaveDeps
| ComputeMd5
| Run (no_download : bool)
| ClearCanPush
| SetFrozen (frozen : bool)
| Dump.

(** A computation that may log events and may raise. *)
Definition M (A : Type) : Type := list Event -> result A * list Event.

#[global] Instance M_ret : MRet M := fun A a log => (Ok a, log).

#[global] Instance M_bind : MBind M := fun A B k m log =>
  match m log with
  | (Ok a, log') => k a log'
  | (Raise e, log') => (Raise e, log')
  end.

Definition raise {A} (e : exn) : M A := fun log => (Raise e, log).

Definition tell (ev : Event) : M unit := fun log => (Ok tt, log ++ [ev]).

Definition lift {A} (r : result A) : M A := fun log => (r, log).

(** A call that logs [ev] and then raises when the collaborator does. *)
Definition perform (ev : Event) (failure : option exn) : M unit :=
  _ ← tell ev;
  match failure with
  | Some e => raise e
  | None => mret tt
  end.

Definition InvalidArgumentError (msg : string) : exn :=
  Exn ["dvc.exceptions.InvalidArgumentError"; "ValueError";
       "dvc.exceptions.DvcException"; "Exception"; "BaseException"] msg.

(** The handler of the graph check: an [OutputDuplicationError] is replaced
    by a new one for the same output (with this stage taken out of its
    stages); any other exception is raised as it is. *)
Definition check_graph_handler (e : exn) : exn :=
  if isinstance e "dvc.exceptions.OutputDuplicationError"
  then OutputDuplicationError (exn_msg e)
  else e.

Record Args := {
  url : string;
  out : option string;
  fname : option string;
  erepo : option string;
  frozen : bool;
  no_download : bool;
  no_exec : bool;
  remote : option string;
  to_remote : bool;
  jobs : option nat;
  fs_config : option (gmap string bool);
  version_aware : bool
}.

(** What the collaborators of [imp_url] return or raise. *)
Record Env := {
  (** [resolve_output(url, out)] *)
  resolve_output : string -> option string -> result string;
  (** [resolve_paths(self, out, always_local=...)] : [(path, wdir, out)] *)
  resolve_paths : string -> bool -> result (string * string * string);
  (** [os.path.exists(url)] *)
  os_path_exists : string -> bool;
  (** [path_isin(os.path.abspath(url), self.root_dir)] *)
  url_isin_root : string -> bool;
  (** [relpath(url, wdir)] of [dvc.utils] *)
  utils_relpath : string -> string -> string;
  create_raises : option exn;
  check_graph_raises : option exn;
  transfer_raises : option exn;
  run_raises : option exn;
  dump_raises : option exn;
  (** [stage.deps[0].fs.version_aware] *)
  dep_version_aware : bool
}.

Record Stage := {
  stage_fname : string;
  stage_wdir : string;
  stage_dep : string;
  stage_out : string;
  stage_erepo : option string;
  stage_fs_config : option (gmap string bool);
  stage_frozen : bool
}.

(** Truthiness of an optional string ([None] and the empty string are
    false). *)
Definition opt_truthy (s : option string) : bool :=
  match s with Some s => PyStr.truthy s | None => false end.

Definition imp_url (env : Env) (a : Args) : M Stage :=
  out ← lift (resolve_output env (url a) (out a));
  '(path, wdir, out) ←
    lift (resolve_paths env out (to_remote a && negb (PyStr.truthy out)));
  if to_remote a && (no_exec a || no_download a) then
    raise (InvalidArgumentError
             "--no-exec/--no-download cannot be combined with --to-remote")
  else if negb (to_remote a) && opt_truthy (remote a) then
    raise (InvalidArgumentError "--remote can't be used without --to-remote")
  else
    let url :=
      if match erepo a with None => true | Some _ => false end
         && os_path_exists env (url a) && url_isin_root env (url a)
      then utils_relpath env (url a) wdir
      else url a in
    let fs_config :=
      if version_aware a
      then Some (<["version_aware" := true]> (default ∅ (fs_config a)))
      else fs_config a in
    let fname := if opt_truthy (fname a) then default path (fname a) else path in
    _ ← perform (StageCreate fname wdir url out) (create_raises env);
    _ ← tell AnnotUpdate;
    _ ← perform CheckGraph (check_graph_handler <$> check_graph_raises env);
    _ ← (if no_exec a then tell IgnoreOuts
         else if to_remote a then
           _ ← perform (Transfer url (remote a)) (transfer_raises env);
           _ ← tell SaveDeps;
           tell ComputeMd5
         else perform (Run (no_download a)) (run_raises env));
    _ ← (if negb (no_exec a) && dep_version_aware env then tell ClearCanPush
         else mret tt);
    _ ← tell (SetFrozen (frozen a));
    _ ← perform Dump (dump_raises env);
    mret {| stage_fname := fname;
            stage_wdir := wdir;
            stage_dep := url;
            stage_out := out;
            stage_erepo := erepo a;
            stage_fs_config := fs_config;
            stage_frozen := frozen a |}.

End ImpUrl.

(** ** [ls]

    The generator [ls] of [dvc/repo/data.py]: the dictionaries it yields, in
    order, and the exception that ends the iteration, if any. *)

Module Ls.

(** The values of the yielded dictionaries: the path is a string, the
    annotations are strings, lists of labels or metadata mappings. *)
Inductive pyval :=
| PStr (s : string)
| PList (l : list string)
| PDict (d : list (string * string)).

Record Out := {
  (** [str(out)] *)
  out_str : string;
  (** [out.annot.to_dict()] *)
  annot_to_dict : gmap string pyval
}.

Record Stage := {
  (** [stage.filter_outs(filter_info)] *)
  filter_outs : option string -> list Out
}.

Record Repo := {
  (** [repo.stage.collect_granular(target, recursive=recursive)] *)
  collect_granular :
    option string -> bool -> result (list (Stage * option string))
}.

(** [{"path": str(out), **out.annot.to_dict()}]: a key of the annotations
    wins over the one written before it. *)
Definition item (out : Out) : gmap string pyval :=
  annot_to_dict out ∪ {["path" := PStr (out_str out)]}.

(** The inner loops: what one list of pairs yields. *)
Definition items_of_pairs (pairs : list (Stage * option string))
  : list (gmap string pyval) :=
  flat_map (fun '(stage, filter_info) => map item (filter_outs stage filter_info))
           pairs.

(** The chained iteration over the targets, which collects the pairs of a
    target when it reaches it. *)
Fixpoint ls_targets (repo : Repo) (recursive : bool)
    (targets : list (option string))
  : list (gmap string pyval) * option exn :=
  match targets with
  | [] => ([], None)
  | target :: rest =>
      match collect_granular repo target recursive with
      | Raise e => ([], Some e)
      | Ok pairs =>
          let '(later, failure) := ls_targets repo recursive rest in
          (items_of_pairs pairs ++ later, failure)
      end
  end.

Definition ls (repo : Repo) (targets : option (list (option string)))
    (recursive : bool) : list (gmap string pyval) * option exn :=
  let targets :=
    match targets with
    | None | Some [] => [None]
    | Some (t :: ts) => t :: ts
    end in
  ls_targets repo recursive targets.

End Ls.

(** ** Vocabulary of the statements *)

(** One emission of [_add_change]: a bucket name and a path. *)
Definition emit (ret : gmap string (list string)) (kp : string * string)
  : gmap string (list string) :=
  let ret' := match ret !! kp.1 with
              | None => <[kp.1 := []]> ret
              | Some _ => ret
              end in
  alter (fun l => l ++ [kp.2]) kp.1 ret'.

(** The paths emitted under [k] by a list of emissions, in order. *)
Definition bucket (k : string) (es : list (string * string)) : list string :=
  map snd (List.filter (fun kp => String.eqb kp.1 k) es).

(** A record that the loop of [_diff] passes over. *)
Definition skipped (c : Change.t) : bool :=
  skip_unchanged_empty c || skip_unknown_gone c.

(** What one record makes [_diff] emit. *)
Definition emissions (os_sep : string) (with_missing : bool) (c : Change.t)
  : list (string * string) :=
  if skipped c then []
  else (if missing_in_cache with_missing c
        then [("not_in_cache", _adapt_path os_sep c)] else [])
       ++ [(_adapt_typ (Change.typ c), _adapt_path os_sep c)].



(** What the specification asks of the tree-diff primitive: every record
    carries one of the five kinds, and a snapshot with unique keys compared
    with itself gives one unchanged record per entry, in whatever order the
    primitive iterates. *)
Definition tags_valid
    (diff : DataIndex -> DataIndex -> bool -> bool -> bool -> bool -> list Change.t)
  : Prop :=
  forall old new wu sh ho wk, Forall valid_typ (diff old new wu sh ho wk).


(** The bucket of a dictionary of path lists, empty when the key is absent. *)
Definition bucket_of (k : string) (d : gmap string (list string)) : list string :=
  default [] (d !! k).

(** ** Concrete snapshots used to run the definitions *)

Definition odb_with (present : list string) : ODB :=
  {| odb_exists := fun h => existsb (String.eqb h) present |}.

Definition md5 (v : string) : option HashInfo :=
  Some {| hash_name := Some "md5"; hash_value := Some v |}.

Definition file_entry (k : list string) (h : option HashInfo) (present : list string)
  : DataIndexEntry :=
  {| entry_key := k; meta := Some {| isdir := false |};
     hash_info := h; odb := odb_with present |}.

Definition dir_entry (k : list string) (h : option HashInfo) (present : list string)
  : DataIndexEntry :=
  {| entry_key := k; meta := Some {| isdir := true |};
     hash_info := h; odb := odb_with present |}.

(** A staged snapshot whose object [h1] is gone from the store, and a
    working tree where [a.txt] is untouched, [b.txt] is edited and [c.txt]
    is new. *)
Definition staged_demo : DataIndex :=
  [ file_entry ["a.txt"] (md5 "h1") ["h2"];
    file_entry ["b.txt"] (md5 "h2") ["h2"];
    dir_entry ["data"] None ["h2"] ].

Definition wtree_demo : DataIndex :=
  [ file_entry ["a.txt"] (md5 "h1") ["h2"];
    file_entry ["b.txt"] (md5 "h3") ["h2"];
    dir_entry ["data"] None ["h2"];
    file_entry ["c.txt"] (md5 "h4") ["h2"] ].


(** The failures of the committed diff that [status] recovers from: those
    its handler catches, the instances of [SCMError] and of [NoSCMError] of
    [dvc.scm]. A missing SCM backend and a repository without commits fail
    this way, and so does every other SCM error. *)
Definition recoverable (e : exn) : bool :=
  caught_by ["dvc.scm.SCMError"; "dvc.scm.NoSCMError"] e.

(** Exceptions of the SCM layer. *)
Definition RevError (msg : string) : exn :=
  Exn ["dvc.scm.RevError"; "dvc.scm.SCMError"; "dvc.exceptions.DvcException";
       "Exception"; "BaseException"] msg.

Definition NoSCMError (msg : string) : exn :=
  Exn ["dvc.scm.NoSCMError"; "dvc.scm.SCMError"; "dvc.exceptions.DvcException";
       "Exception"; "BaseException"] msg.

Definition EmptyRepoError (msg : string) : exn :=
  Exn ["scmrepo.exceptions.SCMError"; "Exception"; "BaseException"] msg.

Definition PermissionError (msg : string) : exn :=
  Exn ["PermissionError"; "OSError"; "Exception"; "BaseException"] msg.

(** A repository in the subdirectory [a/b/sub] of its Git root, with one
    commit, used from its subdirectory [inner]. *)
Definition head_demo : DataIndex :=
  [ file_entry ["a.txt"] (md5 "h1") ["h2"];
    file_entry ["b.txt"] (md5 "h0") ["h2"] ].

Definition git_demo : GitBackend :=
  {| git_root_dir := "/scm";
     get_rev := Ok "abc123";
     git_status := fun _ => Ok (∅, ∅, ["a/b/sub/x.txt"; "other/y.txt"]) |}.

Definition repo_demo : Repo :=
  {| root_dir := "/scm/a/b/sub";
     scm := Git git_demo;
     index_data_repo := staged_demo;
     build_data_index := Ok wtree_demo;
     brancher := fun _ => ([("workspace", staged_demo); ("abc123", head_demo)], None);
     fs_relpath := posixpath.relpath "/scm/a/b/sub/inner";
     fs_getcwd := "/scm/a/b/sub/inner" |}.

(** The same working tree before the first commit. *)
Definition git_fresh : GitBackend :=
  {| git_root_dir := "/scm";
     get_rev := Raise (EmptyRepoError "Empty git repo");
     git_status := fun _ => Ok (∅, ∅, []) |}.

Definition repo_fresh : Repo :=
  {| root_dir := "/scm";
     scm := Git git_fresh;
     index_data_repo := staged_demo;
     build_data_index := Ok wtree_demo;
     brancher := fun _ => ([("workspace", staged_demo)],
                           Some (RevError "unknown Git revision 'HEAD'"));
     fs_relpath := posixpath.relpath "/scm";
     fs_getcwd := "/scm" |}.

(** A repository without SCM backend. *)
Definition repo_noscm : Repo :=
  {| root_dir := "/data";
     scm := NoSCM "/data";
     index_data_repo := staged_demo;
     build_data_index := Ok wtree_demo;
     brancher := fun _ => ([("workspace", staged_demo)],
                           Some (NoSCMError "only supported for Git repositories"));
     fs_relpath := posixpath.relpath "/data";
     fs_getcwd := "/data" |}.

(** A repository whose revision iterator yields the workspace only. *)
Definition repo_stuck : Repo :=
  {| root_dir := "/scm";
     scm := Git git_demo;
     index_data_repo := staged_demo;
     build_data_index := Ok wtree_demo;
     brancher := fun _ => ([("workspace", staged_demo)], None);
     fs_relpath := posixpath.relpath "/scm";
     fs_getcwd := "/scm" |}.

(** A repository whose revision iterator fails on the filesystem. *)
Definition repo_broken : Repo :=
  {| root_dir := "/scm";
     scm := Git git_demo;
     index_data_repo := staged_demo;
     build_data_index := Ok wtree_demo;
     brancher := fun _ => ([], Some (PermissionError "cannot read .git"));
     fs_relpath := posixpath.relpath "/scm";
     fs_getcwd := "/scm" |}.

Definition kwargs_demo : DiffKwargs :=
  {| kw_granular := Some true; kw_with_missing := None; kw_other := [] |}.

(** A backend whose revision lookup fails for a reason of the filesystem. *)
Definition git_unreadable : GitBackend :=
  {| git_root_dir := "/scm";
     get_rev := Raise (PermissionError "cannot read .git");
     git_status := fun _ => Ok (∅, ∅, []) |}.


(** An environment in which every collaborator of [imp_url] succeeds. *)
Definition imp_env_demo : ImpUrl.Env :=
  {| ImpUrl.resolve_output :=
       fun url out => Ok (default "data.csv" out);
     ImpUrl.resolve_paths :=
       fun out _ => Ok (out +:+ ".dvc", "/repo", out);
     ImpUrl.os_path_exists := fun _ => false;
     ImpUrl.url_isin_root := fun _ => false;
     ImpUrl.utils_relpath := fun url _ => url;
     ImpUrl.create_raises := None;
     ImpUrl.check_graph_raises := None;
     ImpUrl.transfer_raises := None;
     ImpUrl.run_raises := None;
     ImpUrl.dump_raises := None;
     ImpUrl.dep_version_aware := false |}.

Definition imp_args (no_download no_exec to_remote : bool) (remote : option string)
  : ImpUrl.Args :=
  {| ImpUrl.url := "s3://bucket/data.csv";
     ImpUrl.out := None;
     ImpUrl.fname := None;
     ImpUrl.erepo := None;
     ImpUrl.frozen := true;
     ImpUrl.no_download := no_download;
     ImpUrl.no_exec := no_exec;
     ImpUrl.remote := remote;
     ImpUrl.to_remote := to_remote;
     ImpUrl.jobs := None;
     ImpUrl.fs_config := None;
     ImpUrl.version_aware := false |}.

(** ** Further vocabulary *)

(** The names of the buckets that the classifier can produce. *)
Definition bucket_names : list string :=
  ["added"; "deleted"; "modified"; "unchanged"; "unknown"; "not_in_cache"].

(** The number of paths held by a mapping of buckets. *)
Definition total_paths (d : gmap string (list string)) : nat :=
  map_fold (fun _ l n => length l + n) 0 d.

(** [c in s] for a character. *)
Fixpoint contains_char (c : ascii) (s : string) : bool :=
  match s with
  | EmptyString => false
  | String c' s' => Ascii.eqb c' c || contains_char c s'
  end.

(** Keywords that [_diff] cannot be called with through the workspace
    comparer: [with_missing], which it passes itself, and any keyword that
    [_diff] does not have. *)
Definition rejected_kwargs (kwargs : DiffKwargs) : bool :=
  match kw_with_missing kwargs with Some _ => true | None => false end
  || list_truthy (kw_other kwargs).

(** The directory flag that [_adapt_path] reads off a record. *)
Definition side_meta (c : Change.t) : option Meta :=
  match Change.new c with
  | Some {| meta := Some m |} => Some m
  | _ =>
      match Change.old c with
      | Some {| meta := Some m |} => Some m
      | _ => None
      end
  end.

(** Kinds of stage events. *)
Definition is_run (ev : ImpUrl.Event) : bool :=
  match ev with ImpUrl.Run _ => true | _ => false end.

Definition is_transfer (ev : ImpUrl.Event) : bool :=
  match ev with ImpUrl.Transfer _ _ => true | _ => false end.

Definition is_ignore (ev : ImpUrl.Event) : bool :=
  match ev with ImpUrl.IgnoreOuts => true | _ => false end.

Definition is_dump (ev : ImpUrl.Event) : bool :=
  match ev with ImpUrl.Dump => true | _ => false end.

Definition is_create (ev : ImpUrl.Event) : bool :=
  match ev with ImpUrl.StageCreate _ _ _ _ => true | _ => false end.

(** The events that make the import happen in one of its three modes. *)
Definition is_mode (ev : ImpUrl.Event) : bool :=
  is_run ev || is_transfer ev || is_ignore ev.

(** The reference primitive with the records that [_diff] suppresses left
    out. *)
Definition diff_model_unsuppressed (old new : DataIndex)
    (with_unchanged shallow hash_only with_unknown : bool) : list Change.t :=
  List.filter (fun c => negb (skipped c))
              (diff_model old new with_unchanged shallow hash_only with_unknown).

(** The outputs that a list of collected pairs stands for, in order. *)
Definition outs_of_pairs (pairs : list (Ls.Stage * option string)) : list Ls.Out :=
  flat_map (fun '(stage, filter_info) => Ls.filter_outs stage filter_info) pairs.

(** A repository with two stages: one tracks a data file with a
    description, the other a model without annotations; any other target is
    unknown. *)
Definition out_data : Ls.Out :=
  {| Ls.out_str := "data.csv";
     Ls.annot_to_dict := {["desc" := Ls.PStr "raw data"]} |}.

Definition out_model : Ls.Out :=
  {| Ls.out_str := "model.pkl"; Ls.annot_to_dict := ∅ |}.

Definition stage_of (outs : list Ls.Out) : Ls.Stage :=
  {| Ls.filter_outs := fun _ => outs |}.

Definition NoOutputOrStageError (msg : string) : exn :=
  Exn ["dvc.exceptions.NoOutputOrStageError"; "dvc.exceptions.DvcException";
       "Exception"; "BaseException"] msg.

Definition ls_repo_demo : Ls.Repo :=
  {| Ls.collect_granular := fun target _ =>
       match target with
       | None => Ok [(stage_of [out_data], None); (stage_of [out_model], None)]
       | Some "data.csv" => Ok [(stage_of [out_data], Some "data.csv")]
       | Some "model.pkl" => Ok [(stage_of [out_model], Some "model.pkl")]
       | Some t => Raise (NoOutputOrStageError t)
       end |}.

(** Environments in which the graph check, respectively the dump, fails. *)
Definition imp_env_duplicate : ImpUrl.Env :=
  {| ImpUrl.resolve_output := ImpUrl.resolve_output imp_env_demo;
     ImpUrl.resolve_paths := ImpUrl.resolve_paths imp_env_demo;
     ImpUrl.os_path_exists := fun _ => false;
     ImpUrl.url_isin_root := fun _ => false;
     ImpUrl.utils_relpath := fun url _ => url;
     ImpUrl.create_raises := None;
     ImpUrl.check_graph_raises := Some (OutputDuplicationError "data.csv");
     ImpUrl.transfer_raises := None;
     ImpUrl.run_raises := None;
     ImpUrl.dump_raises := None;
     ImpUrl.dep_version_aware := false |}.

Definition imp_env_readonly : ImpUrl.Env :=
  {| ImpUrl.resolve_output := ImpUrl.resolve_output imp_env_demo;
     ImpUrl.resolve_paths := ImpUrl.resolve_paths imp_env_demo;
     ImpUrl.os_path_exists := fun _ => false;
     ImpUrl.url_isin_root := fun _ => false;
     ImpUrl.utils_relpath := fun url _ => url;
     ImpUrl.create_raises := None;
     ImpUrl.check_graph_raises := None;
     ImpUrl.transfer_raises := None;
     ImpUrl.run_raises := None;
     ImpUrl.dump_raises := Some (PermissionError "data.csv.dvc");
     ImpUrl.dep_version_aware := false |}.

(** Arguments asking for a version-aware import with a filesystem
    configuration of their own. *)
Definition imp_args_versioned : ImpUrl.Args :=
  {| ImpUrl.url := "s3://bucket/data.csv";
     ImpUrl.out := None;
     ImpUrl.fname := None;
     ImpUrl.erepo := None;
     ImpUrl.frozen := true;
     ImpUrl.no_download := false;
     ImpUrl.no_exec := false;
     ImpUrl.remote := None;
     ImpUrl.to_remote := false;
     ImpUrl.jobs := None;
     ImpUrl.fs_config := Some {["anon" := true]};
     ImpUrl.version_aware := true |}.

(** A repository whose working tree cannot be read. *)
Definition repo_unbuilt : Repo :=
  {| root_dir := "/scm";
     scm := Git git_demo;
     index_data_repo := staged_demo;
     build_data_index := Raise (PermissionError "data/raw");
     brancher := fun _ => ([("workspace", staged_demo); ("abc123", head_demo)], None);
     fs_relpath := posixpath.relpath "/scm";
     fs_getcwd := "/scm" |}.


(** A repository with commits in which only [HEAD] can be resolved. *)
Definition repo_badhead : Repo :=
  {| root_dir := "/scm";
     scm := Git git_demo;
     index_data_repo := staged_demo;
     build_data_index := Ok wtree_demo;
     brancher := fun revs =>
       if bool_decide (revs = ["HEAD"])
       then ([("workspace", staged_demo); ("abc123", head_demo)], None)
       else ([("workspace", staged_demo)],
             Some (RevError "unknown Git revision 'no-such-branch'"));
     fs_relpath := posixpath.relpath "/scm";
     fs_getcwd := "/scm" |}.

(** A backend none of whose implementations can resolve a revision. *)
Definition NoGitBackendError (msg : string) : exn :=
  Exn ["scmrepo.git.backend.base.NoGitBackendError";
       "scmrepo.exceptions.SCMError"; "Exception"; "BaseException"] msg.

Definition git_nobackend : GitBackend :=
  {| git_root_dir := "/scm";
     get_rev := Raise (NoGitBackendError "No valid Git backend for 'get_rev'");
     git_status := fun _ => Ok (∅, ∅, []) |}.



(** The names of the buckets of the five kinds. *)
Definition kind_bucket_names : list string :=
  ["added"; "deleted"; "modified"; "unchanged"; "unknown"].

(** * Properties *)

(** ** The loop of the classifier as a sequence of emissions *)

Lemma emit_lookup_eq ret k p :
  emit ret (k, p) !! k = Some (default [] (ret !! k) ++ [p]).
Proof.
  unfold emit; simpl.
  destruct (ret !! k) as [l|] eqn:E.
  - by rewrite lookup_alter_eq, E.
  - by rewrite lookup_alter_eq, lookup_insert_eq.
Qed.

Lemma emit_lookup_ne ret k k' p :
  k ≠ k' -> emit ret (k, p) !! k' = ret !! k'.
Proof.
  intros Hne. unfold emit; simpl.
  rewrite lookup_alter_ne by done.
  destruct (ret !! k); [done|]. by rewrite lookup_insert_ne.
Qed.

Lemma bucket_app k es1 es2 : bucket k (es1 ++ es2) = bucket k es1 ++ bucket k es2.
Proof. unfold bucket. by rewrite List.filter_app, map_app. Qed.

Lemma bucket_cons_eq k p es : bucket k ((k, p) :: es) = p :: bucket k es.
Proof. unfold bucket; simpl. by rewrite String.eqb_refl. Qed.

Lemma bucket_cons_ne k k' p es : k' ≠ k -> bucket k ((k', p) :: es) = bucket k es.
Proof.
  intros Hne. unfold bucket; simpl.
  destruct (String.eqb_spec k' k); [done|reflexivity].
Qed.

Lemma fold_emit_lookup es : forall ret k,
  fold_left emit es ret !! k =
  match bucket k es with
  | [] => ret !! k
  | ps => Some (default [] (ret !! k) ++ ps)
  end.
Proof.
  induction es as [|[k' p] es IH]; intros ret k; [done|].
  simpl fold_left. rewrite IH.
  destruct (decide (k' = k)) as [->|Hne].
  - rewrite bucket_cons_eq, emit_lookup_eq. simpl.
    destruct (bucket k es); simpl; [done|].
    by rewrite <- app_assoc.
  - rewrite bucket_cons_ne, emit_lookup_ne by done. done.
Qed.

Lemma _add_change_emit os_sep ret typ c :
  _add_change os_sep ret typ c = emit ret (_adapt_typ typ, _adapt_path os_sep c).
Proof. reflexivity. Qed.

Lemma _diff_step_emissions os_sep wm ret c :
  _diff_step os_sep wm ret c = fold_left emit (emissions os_sep wm c) ret.
Proof.
  unfold _diff_step, emissions, skipped.
  destruct (skip_unchanged_empty c); [done|].
  destruct (skip_unknown_gone c); [done|]. simpl.
  destruct (missing_in_cache wm c); reflexivity.
Qed.

Lemma fold_diff_steps os_sep wm cs : forall ret,
  fold_left (_diff_step os_sep wm) cs ret
  = fold_left emit (flat_map (emissions os_sep wm) cs) ret.
Proof.
  induction cs as [|c cs IH]; intros ret; [done|].
  simpl. by rewrite fold_left_app, IH, _diff_step_emissions.
Qed.

Lemma _diff_lookup os_sep diff old new granular wm k :
  _diff os_sep diff old new granular wm !! k =
  match bucket k (flat_map (emissions os_sep wm)
                           (diff old new true (negb granular) true true)) with
  | [] => None
  | ps => Some ps
  end.
Proof.
  unfold _diff. rewrite fold_diff_steps, fold_emit_lookup.
  by rewrite lookup_empty.
Qed.

(** ** C9: no empty bucket *)

(** C9. Whatever the two snapshots and the flags, a key is in the mapping
    returned by the classifier only when a path was emitted under it: the
    list stored under the key is the non-empty list of the paths emitted
    under it, in order. *)
Theorem _diff_buckets_nonempty os_sep diff old new granular with_missing k l :
  _diff os_sep diff old new granular with_missing !! k = Some l ->
  0 < length l
  /\ l = bucket k (flat_map (emissions os_sep with_missing)
                            (diff old new true (negb granular) true true)).
Proof.
  rewrite _diff_lookup.
  destruct (bucket k _) as [|p ps] eqn:E; [discriminate|].
  intros [= <-]. split; [simpl; lia|reflexivity].
Qed.

Lemma _diff_buckets_nonempty_witness :
  _diff "/" diff_model staged_demo wtree_demo true true !! "modified"
  = Some ["b.txt"]
  /\ 0 < length ["b.txt"].
Proof.
  split; [vm_compute; reflexivity|].
  apply (_diff_buckets_nonempty "/" diff_model staged_demo wtree_demo
           true true "modified" ["b.txt"]).
  vm_compute; reflexivity.
Defined.

(** ** C2: what reaches [not_in_cache] *)

Lemma valid_typ_not_in_cache c :
  valid_typ c -> _adapt_typ (Change.typ c) ≠ "not_in_cache".
Proof.
  unfold valid_typ, change_kinds. simpl.
  intros [H|[H|[H|[H|[H|[]]]]]]; rewrite <- H; discriminate.
Qed.

Lemma bucket_not_in_cache os_sep wm cs :
  Forall valid_typ cs ->
  bucket "not_in_cache" (flat_map (emissions os_sep wm) cs)
  = map (_adapt_path os_sep)
        (List.filter (fun c => negb (skipped c) && missing_in_cache wm c) cs).
Proof.
  induction 1 as [|c cs Hc _ IH]; [done|].
  simpl flat_map. rewrite bucket_app, IH. simpl List.filter.
  unfold emissions at 1.
  destruct (skipped c); [done|].
  pose proof (valid_typ_not_in_cache c Hc) as Hne.
  destruct (missing_in_cache wm c); cbn [negb andb app map].
  - rewrite bucket_cons_eq, bucket_cons_ne by done. done.
  - rewrite bucket_cons_ne by done. done.
Qed.

Lemma bucket_kind_elem os_sep wm c cs :
  In c cs -> skipped c = false ->
  In (_adapt_path os_sep c)
     (bucket (_adapt_typ (Change.typ c)) (flat_map (emissions os_sep wm) cs)).
Proof.
  induction cs as [|c' cs IH]; [intros []|].
  intros [->|Hin] Hs; simpl flat_map; rewrite bucket_app; apply in_or_app.
  - left. unfold emissions. rewrite Hs.
    rewrite bucket_app. apply in_or_app. right.
    rewrite bucket_cons_eq. by left.
  - right. by apply IH.
Qed.

Lemma sublist_List_filter {A} (f : A -> bool) (l : list A) :
  List.filter f l `sublist_of` l.
Proof.
  induction l as [|x l IH]; simpl; [constructor|].
  destruct (f x); by constructor.
Qed.

(** C2. With [with_missing] set, the [not_in_cache] bucket holds the paths
    of a subsequence of the records of the diff, each of which has an [old]
    entry carrying a content hash that the object store of that entry
    reports as absent (so no record without an [old] entry is among them),
    and each of which is also emitted into the bucket of its own kind. *)
Theorem not_in_cache_only_missing_old os_sep diff old new granular :
  Forall valid_typ (diff old new true (negb granular) true true) ->
  let ret := _diff os_sep diff old new granular true in
  exists emitted : list Change.t,
    emitted `sublist_of` diff old new true (negb granular) true true
    /\ bucket_of "not_in_cache" ret = map (_adapt_path os_sep) emitted
    /\ Forall
         (fun c =>
            (exists o v,
               Change.old c = Some o
               /\ hash_value_of (hash_info o) = Some v
               /\ odb_exists (odb o) v = false)
            /\ In (_adapt_path os_sep c)
                  (bucket_of (_adapt_typ (Change.typ c)) ret))
         emitted.
Proof.
  intros Hvalid ret.
  set (cs := diff old new true (negb granular) true true) in *.
  exists (List.filter (fun c => negb (skipped c) && missing_in_cache true c) cs).
  split; [apply sublist_List_filter|]. split.
  - unfold bucket_of, ret. rewrite _diff_lookup. fold cs.
    rewrite bucket_not_in_cache by done.
    by destruct (map _ _).
  - apply List.Forall_forall. intros c [Hin Hc]%filter_In.
    apply andb_true_iff in Hc as [Hskip Hmiss].
    apply negb_true_iff in Hskip. split.
    + unfold missing_in_cache in Hmiss. simpl in Hmiss.
      destruct (Change.old c) as [o|]; [|discriminate].
      destruct (hash_value_of (hash_info o)) as [v|] eqn:Hv; [|discriminate].
      exists o, v. apply negb_true_iff in Hmiss. auto.
    + pose proof (bucket_kind_elem os_sep true c cs Hin Hskip) as Hb.
      unfold bucket_of, ret. rewrite _diff_lookup. fold cs.
      by destruct (bucket _ _).
Qed.

(** ** C3: a snapshot compared with itself *)





Ltac one_record H :=
  simpl in H;
  first [ destruct H as [<-|[]]; unfold valid_typ; simpl; auto 10
        | destruct H ].

Lemma diff_model_tags_valid : tags_valid diff_model.
Proof.
  intros old new wu sh ho wk. unfold diff_model.
  apply Forall_app. split; apply List.Forall_forall; intros c Hc;
    apply in_flat_map in Hc as [e [_ Hc]].
  - destruct (find_entry _ _); [|one_record Hc].
    destruct (bool_decide _); [destruct wu|]; one_record Hc.
  - destruct (find_entry _ _); one_record Hc.
Qed.

Lemma not_in_cache_only_missing_old_witness :
  Forall valid_typ (diff_model staged_demo wtree_demo true (negb true) true true)
  /\ exists emitted : list Change.t,
      emitted `sublist_of` diff_model staged_demo wtree_demo true (negb true) true true
      /\ bucket_of "not_in_cache" (_diff "/" diff_model staged_demo wtree_demo true true)
         = map (_adapt_path "/") emitted
      /\ Forall
           (fun c =>
              (exists o v,
                 Change.old c = Some o
                 /\ hash_value_of (hash_info o) = Some v
                 /\ odb_exists (odb o) v = false)
              /\ In (_adapt_path "/" c)
                    (bucket_of (_adapt_typ (Change.typ c))
                               (_diff "/" diff_model staged_demo wtree_demo true true)))
           emitted.
Proof.
  assert (Hv : Forall valid_typ
                 (diff_model staged_demo wtree_demo true (negb true) true true)).
  { apply diff_model_tags_valid. }
  split; [exact Hv|].
  exact (not_in_cache_only_missing_old "/" diff_model staged_demo wtree_demo true Hv).
Defined.










(** ** The status aggregator *)

Ltac step_result H x e Heq :=
  match type of H with
  | context [mbind _ ?m] =>
      destruct m as [x|e] eqn:Heq; cbn [mbind result_bind] in H;
      [|discriminate H]
  end.

Lemma status_inv os_sep os_name diff repo uf head kwargs report :
  status os_sep os_name diff repo uf head kwargs = Ok report ->
  exists unc cu g u,
    _diff_index_to_wtree os_sep diff repo kwargs = Ok unc
    /\ committed_and_unchanged
         (_diff_head_to_index os_sep diff repo (default "HEAD" head) kwargs)
         (list_to_set (bucket_of "unchanged" unc)) = Ok cu
    /\ _git_info os_sep os_name (scm repo) uf = Ok g
    /\ report = {| st_not_in_cache := bucket_of "not_in_cache" unc;
                   st_committed := cu.1;
                   st_uncommitted := delete "unchanged" (delete "not_in_cache" unc);
                   st_untracked := u;
                   st_unchanged := elements cu.2;
                   st_git := g |}.
Proof.
  unfold status. intros H.
  step_result H unc e Hunc.
  unfold pop_list in H. cbn [fst snd] in H.
  rewrite lookup_delete_ne in H by done.
  step_result H cu e Hcu. destruct cu as [comm unchanged].
  step_result H g e Hg.
  step_result H u e Hu.
  injection H as <-.
  exists unc, (comm, unchanged), g, u. auto.
Qed.

(** C1. In every report that [status] returns, the [unchanged] list has no
    repetition and, as a set, is the intersection of the [unchanged] buckets
    of the uncommitted and of the committed diff; when the committed diff
    was not available (its computation raised one of the failures [status]
    recovers from), it is the [unchanged] bucket of the uncommitted diff
    alone. *)
Theorem status_unchanged_is_intersection
    os_sep os_name diff repo uf head kwargs report :
  status os_sep os_name diff repo uf head kwargs = Ok report ->
  exists unc,
    _diff_index_to_wtree os_sep diff repo kwargs = Ok unc
    /\ NoDup (st_unchanged report)
    /\ match _diff_head_to_index os_sep diff repo (default "HEAD" head) kwargs with
       | Ok comm =>
           (list_to_set (st_unchanged report) : gset string)
           = list_to_set (bucket_of "unchanged" unc)
             ∩ list_to_set (bucket_of "unchanged" comm)
       | Raise e =>
           recoverable e = true
           /\ (list_to_set (st_unchanged report) : gset string)
              = list_to_set (bucket_of "unchanged" unc)
       end.
Proof.
  intros H. apply status_inv in H as (unc & cu & g & u & Hunc & Hcu & Hg & ->).
  exists unc. split; [done|]. cbn [st_unchanged].
  split; [apply NoDup_elements|].
  rewrite list_to_set_elements_L.
  unfold committed_and_unchanged in Hcu.
  destruct (_diff_head_to_index _ _ _ _ _) as [comm|e].
  - cbn in Hcu. by injection Hcu as <-.
  - unfold recoverable.
    destruct (caught_by _ e); [|discriminate].
    by injection Hcu as <-.
Qed.

Lemma status_unchanged_is_intersection_witness :
  (exists report,
     status "/" "posix" diff_model repo_demo "all" None kwargs_demo = Ok report
     /\ st_unchanged report = ["a.txt"])
  /\ exists unc,
       _diff_index_to_wtree "/" diff_model repo_demo kwargs_demo = Ok unc
       /\ NoDup ["a.txt"]
       /\ (list_to_set ["a.txt"] : gset string)
          = list_to_set (bucket_of "unchanged" unc)
            ∩ list_to_set
                (bucket_of "unchanged"
                   (_diff "/" diff_model head_demo staged_demo true false)).
Proof.
  assert (Hs : exists report,
             status "/" "posix" diff_model repo_demo "all" None kwargs_demo
             = Ok report
             /\ st_unchanged report = ["a.txt"])
    by (eexists; split; vm_compute; reflexivity).
  split; [exact Hs|]. destruct Hs as (report & Hr & Hu).
  pose proof (status_unchanged_is_intersection _ _ _ _ _ _ _ _ Hr) as H.
  rewrite Hu in H. exact H.
Defined.

(** C4 (amended). When the uncommitted diff is there and the computation of
    the committed diff raises [e]: if [e] is an instance of [SCMError] or of
    [NoSCMError] of [dvc.scm] (the classes of the failures for a missing SCM
    backend and for a repository without commits, and of every other SCM
    error, an unknown revision among them), [status] goes on with the empty
    mapping as committed diff, so that it returns a report whose [committed]
    field is empty as soon as the SCM status and the path translation
    return; an [e] that is an instance of neither class is raised by
    [status] itself, unchanged. *)
Theorem status_recovers_scm_errors
    os_sep os_name diff repo uf head kwargs unc e :
  _diff_index_to_wtree os_sep diff repo kwargs = Ok unc ->
  _diff_head_to_index os_sep diff repo (default "HEAD" head) kwargs = Raise e ->
  (isinstance e "dvc.scm.SCMError" = true
   \/ isinstance e "dvc.scm.NoSCMError" = true ->
     status os_sep os_name diff repo uf head kwargs
     = (g ← _git_info os_sep os_name (scm repo) uf;
        u ← _transform_git_paths_to_dvc os_sep repo
              (match g with Some g => untracked g | None => [] end);
        Ok {| st_not_in_cache := bucket_of "not_in_cache" unc;
              st_committed := ∅;
              st_uncommitted := delete "unchanged" (delete "not_in_cache" unc);
              st_untracked := u;
              st_unchanged := elements (list_to_set (bucket_of "unchanged" unc)
                                          : gset string);
              st_git := g |}))
  /\ (isinstance e "dvc.scm.SCMError" = false ->
      isinstance e "dvc.scm.NoSCMError" = false ->
      status os_sep os_name diff repo uf head kwargs = Raise e).
Proof.
  intros Hunc Hcomm. unfold status.
  rewrite Hunc, Hcomm. cbn [mbind result_bind committed_and_unchanged].
  unfold caught_by. cbn [existsb]. split.
  - intros Hc.
    assert (Hor : isinstance e "dvc.scm.SCMError"
                  || (isinstance e "dvc.scm.NoSCMError" || false) = true).
    { destruct Hc as [->| ->]; [done|]. by rewrite !orb_true_r. }
    rewrite Hor. cbn [mbind result_bind].
    unfold pop_list, bucket_of. cbn [fst snd].
    by rewrite lookup_delete_ne.
  - by intros -> ->.
Qed.

Lemma status_recovers_scm_errors_witness :
  (exists report,
     status "/" "posix" diff_model repo_fresh "all" None kwargs_demo = Ok report
     /\ st_committed report = ∅)
  /\ (exists report,
        status "/" "posix" diff_model repo_noscm "all" None kwargs_demo = Ok report
        /\ st_committed report = ∅)
  /\ status "/" "posix" diff_model repo_broken "all" None kwargs_demo
     = Raise (PermissionError "cannot read .git").
Proof.
  pose (unc := _diff "/" diff_model staged_demo wtree_demo true true).
  split; [|split].
  - destruct (status_recovers_scm_errors "/" "posix" diff_model repo_fresh
                "all" None kwargs_demo unc (RevError "unknown Git revision 'HEAD'")
                eq_refl eq_refl) as [Hrec _].
    rewrite (Hrec (or_introl eq_refl)). eexists. split; reflexivity.
  - destruct (status_recovers_scm_errors "/" "posix" diff_model repo_noscm
                "all" None kwargs_demo unc
                (NoSCMError "only supported for Git repositories")
                eq_refl eq_refl) as [Hrec _].
    rewrite (Hrec (or_intror eq_refl)). eexists. split; reflexivity.
  - destruct (status_recovers_scm_errors "/" "posix" diff_model repo_broken
                "all" None kwargs_demo unc (PermissionError "cannot read .git")
                eq_refl eq_refl) as [_ Hprop].
    exact (Hprop eq_refl eq_refl).
Defined.

(** C4 as stated fails for a failure that is neither of the two it names: in
    a repository with commits and an SCM backend, asking for a head that
    does not exist makes the committed diff raise [RevError], an
    [SCMError], and [status] returns a report with an empty [committed]
    mapping instead of raising it. *)
Lemma status_swallows_unknown_revision :
  get_rev git_demo = Ok "abc123"
  /\ _diff_head_to_index "/" diff_model repo_badhead "no-such-branch" kwargs_demo
     = Raise (RevError "unknown Git revision 'no-such-branch'")
  /\ exists report,
       status "/" "posix" diff_model repo_badhead "all" (Some "no-such-branch")
              kwargs_demo = Ok report
       /\ st_committed report = ∅
       /\ (is_empty <$> st_git report) = Some false.
Proof.
  split; [reflexivity|]. split; [reflexivity|].
  eexists. split; [vm_compute; reflexivity|]. split; reflexivity.
Qed.

Lemma head_index_workspace_only states :
  Forall (fun st => st.1 = "workspace") states ->
  head_index_after states = None.
Proof.
  unfold head_index_after. intros Hall.
  enough (Hacc : forall acc : option DataIndex,
             fold_left
               (fun head_index '(rev, index_at_rev) =>
                  if String.eqb rev "workspace" then head_index
                  else Some index_at_rev)
               states acc = acc) by apply Hacc.
  induction Hall as [|[rev idx] l Hrev _ IH]; intros acc; [done|].
  simpl in Hrev. subst rev. simpl. apply IH.
Qed.

(** C6. When the revision iterator ends without an exception and without
    having yielded a state other than the workspace, the commit comparer
    raises [UnboundLocalError]; this is not one of the failures that
    [status] recovers from, so [status] raises it too once the uncommitted
    diff is there. *)
Theorem head_never_resolved_raises os_sep os_name diff repo head kwargs states :
  brancher repo [head] = (states, None) ->
  Forall (fun st => st.1 = "workspace") states ->
  exists msg,
    _diff_head_to_index os_sep diff repo head kwargs
    = Raise (UnboundLocalError msg)
    /\ recoverable (UnboundLocalError msg) = false
    /\ forall uf unc,
         _diff_index_to_wtree os_sep diff repo kwargs = Ok unc ->
         status os_sep os_name diff repo uf (Some head) kwargs
         = Raise (UnboundLocalError msg).
Proof.
  intros Hb Hall.
  pose proof (head_index_workspace_only states Hall) as Hnone.
  eexists. split; [|split; [reflexivity|]].
  - unfold _diff_head_to_index. rewrite Hb, Hnone. reflexivity.
  - intros uf unc Hunc. unfold status. rewrite Hunc.
    cbn [mbind result_bind]. change (default "HEAD" (Some head)) with head.
    unfold _diff_head_to_index. rewrite Hb, Hnone.
    reflexivity.
Qed.

Lemma head_never_resolved_raises_witness :
  exists msg,
    _diff_head_to_index "/" diff_model repo_stuck "HEAD" kwargs_demo
    = Raise (UnboundLocalError msg)
    /\ recoverable (UnboundLocalError msg) = false
    /\ status "/" "posix" diff_model repo_stuck "all" (Some "HEAD") kwargs_demo
       = Raise (UnboundLocalError msg).
Proof.
  destruct (head_never_resolved_raises "/" "posix" diff_model repo_stuck "HEAD"
              kwargs_demo [("workspace", staged_demo)] eq_refl)
    as (msg & H1 & H2 & H3).
  { repeat constructor. }
  exists msg. split; [exact H1|]. split; [exact H2|].
  apply (H3 "all" (_diff "/" diff_model staged_demo wtree_demo true true)).
  reflexivity.
Defined.

(** ** C8: keys that never reach the report *)

Lemma no_not_in_cache_without_missing os_sep diff old new granular :
  Forall valid_typ (diff old new true (negb granular) true true) ->
  _diff os_sep diff old new granular false !! "not_in_cache" = None.
Proof.
  intros Hv. rewrite _diff_lookup, bucket_not_in_cache by done.
  assert (Hf : forall cs,
             List.filter
               (fun c => negb (skipped c) && missing_in_cache false c) cs = []).
  { induction cs as [|c cs IH]; [done|]. simpl.
    by rewrite andb_false_r. }
  by rewrite Hf.
Qed.

Lemma wtree_diff_without_override os_sep diff repo kwargs unc :
  _diff_index_to_wtree os_sep diff repo kwargs = Ok unc ->
  kw_with_missing kwargs = None /\ kw_other kwargs = [].
Proof.
  unfold _diff_index_to_wtree, call_diff.
  destruct (build_data_index repo) as [workspace|e];
    cbn [mbind result_bind]; [|discriminate].
  destruct (kw_with_missing kwargs); [discriminate|].
  by destruct (kw_other kwargs).
Qed.

(** C8. In every report that [status] returns, when the diff primitive tags
    its records with the five kinds only, neither [committed] nor
    [uncommitted] has the key [unchanged] or the key [not_in_cache]; the
    call carried no [with_missing] keyword, and a committed diff that was
    computed is the classification, without missing-cache detection, of
    some revision's index against the staged index. *)
Theorem report_without_unchanged_and_not_in_cache
    os_sep os_name diff repo uf head kwargs report :
  tags_valid diff ->
  status os_sep os_name diff repo uf head kwargs = Ok report ->
  (st_committed report !! "unchanged" = None
   /\ st_committed report !! "not_in_cache" = None
   /\ st_uncommitted report !! "unchanged" = None
   /\ st_uncommitted report !! "not_in_cache" = None)
  /\ kw_with_missing kwargs = None
  /\ forall comm,
       _diff_head_to_index os_sep diff repo (default "HEAD" head) kwargs = Ok comm ->
       exists head_index,
         comm = _diff os_sep diff head_index (index_data_repo repo)
                      (default false (kw_granular kwargs)) false.
Proof.
  intros Hv H. apply status_inv in H as (unc & cu & g & u & Hunc & Hcu & Hg & ->).
  destruct (wtree_diff_without_override _ _ _ _ _ Hunc) as [Hwm Hother].
  assert (Hcomm : forall comm,
    _diff_head_to_index os_sep diff repo (default "HEAD" head) kwargs = Ok comm ->
    exists head_index,
      comm = _diff os_sep diff head_index (index_data_repo repo)
                   (default false (kw_granular kwargs)) false).
  { unfold _diff_head_to_index, call_diff. rewrite Hwm, Hother.
    destruct (brancher repo _) as [states [e|]]; [discriminate|].
    destruct (head_index_after states) as [hi|]; [|discriminate].
    intros comm [= <-]. by exists hi. }
  split; [|by split]. cbn [st_committed st_uncommitted].
  split; [|split; [|split]].
  - unfold committed_and_unchanged, pop_list in Hcu.
    destruct (_diff_head_to_index _ _ _ _ _) as [comm|e].
    + injection Hcu as <-. apply lookup_delete_eq.
    + destruct (caught_by _ e); [|discriminate]. by injection Hcu as <-.
  - unfold committed_and_unchanged, pop_list in Hcu.
    destruct (_diff_head_to_index _ _ _ _ _) as [comm|e].
    + injection Hcu as <-. cbn [fst]. rewrite lookup_delete_ne by done.
      destruct (Hcomm comm eq_refl) as [hi ->].
      apply no_not_in_cache_without_missing, Hv.
    + destruct (caught_by _ e); [|discriminate]. by injection Hcu as <-.
  - apply lookup_delete_eq.
  - rewrite lookup_delete_ne by done. apply lookup_delete_eq.
Qed.

Lemma report_without_unchanged_and_not_in_cache_witness :
  exists report,
    status "/" "posix" diff_model repo_demo "all" None kwargs_demo = Ok report
    /\ st_committed report !! "unchanged" = None
    /\ st_committed report !! "not_in_cache" = None
    /\ st_uncommitted report !! "unchanged" = None
    /\ st_uncommitted report !! "not_in_cache" = None.
Proof.
  assert (Hs : exists report,
             status "/" "posix" diff_model repo_demo "all" None kwargs_demo
             = Ok report)
    by (eexists; vm_compute; reflexivity).
  destruct Hs as [report Hr]. exists report. split; [exact Hr|].
  exact (proj1 (report_without_unchanged_and_not_in_cache "/" "posix" diff_model
                  repo_demo "all" None kwargs_demo report
                  diff_model_tags_valid Hr)).
Defined.

(** ** C5: the SCM status adapter and the empty repository *)

(** C5 (amended). With an SCM backend, [is_empty] comes from the attempt to
    resolve the current revision: it is false when [get_rev] returns; when
    [get_rev] raises an instance of the backend's [SCMError] (the failure of
    a repository without commits is one, and so is every other error of that
    class), the adapter does not raise it and reports [is_empty = true] as
    soon as the status query returns; an exception of [get_rev] that is not
    an instance of [SCMError] is raised by the adapter, unchanged. *)
Theorem _git_info_is_empty os_sep os_name backend uf :
  (forall rev g,
     get_rev backend = Ok rev ->
     _git_info os_sep os_name (Git backend) uf = Ok (Some g) ->
     is_empty g = false)
  /\ (forall e,
        get_rev backend = Raise e ->
        isinstance e "scmrepo.exceptions.SCMError" = true ->
        (forall parts, git_status backend uf = Ok parts ->
           exists g, _git_info os_sep os_name (Git backend) uf = Ok (Some g)
                     /\ is_empty g = true)
        /\ (forall e', git_status backend uf = Raise e' ->
              _git_info os_sep os_name (Git backend) uf = Raise e'))
  /\ (forall e,
        get_rev backend = Raise e ->
        isinstance e "scmrepo.exceptions.SCMError" = false ->
        _git_info os_sep os_name (Git backend) uf = Raise e).
Proof.
  unfold _git_info. split; [|split].
  - intros rev g ->. cbn [mbind result_bind].
    destruct (git_status backend uf) as [[[st un] unt]|e]; [|discriminate].
    cbn [mbind result_bind]. by intros [= <-].
  - intros e -> ->. cbn [mbind result_bind]. split.
    + intros [[st un] unt] ->. cbn [mbind result_bind]. eexists. by split.
    + by intros e' ->.
  - by intros e -> ->.
Qed.

Lemma _git_info_is_empty_witness :
  (exists g, _git_info "/" "posix" (Git git_fresh) "all" = Ok (Some g)
             /\ is_empty g = true)
  /\ _git_info "/" "posix" (Git git_unreadable) "all"
     = Raise (PermissionError "cannot read .git").
Proof.
  destruct (_git_info_is_empty "/" "posix" git_fresh "all") as (_ & Hfresh & _).
  destruct (_git_info_is_empty "/" "posix" git_unreadable "all") as (_ & _ & Hbad).
  split.
  - exact (proj1 (Hfresh (EmptyRepoError "Empty git repo") eq_refl eq_refl)
             (∅, ∅, []) eq_refl).
  - exact (Hbad (PermissionError "cannot read .git") eq_refl eq_refl).
Defined.

(** C5 as stated fails for an error of the backend that is not the one of an
    empty repository: when no Git implementation can resolve the revision,
    [get_rev] raises [NoGitBackendError], an [SCMError], and the adapter
    reports [is_empty = true] instead of raising it. *)
Lemma _git_info_catches_other_scm_errors :
  get_rev git_nobackend
  = Raise (NoGitBackendError "No valid Git backend for 'get_rev'")
  /\ isinstance (NoGitBackendError "No valid Git backend for 'get_rev'")
       "scmrepo.git.backend.base.NoGitBackendError" = true
  /\ exists g,
       _git_info "/" "posix" (Git git_nobackend) "all" = Ok (Some g)
       /\ is_empty g = true.
Proof.
  split; [reflexivity|]. split; [reflexivity|].
  eexists. split; reflexivity.
Qed.

(** ** C7: the path translator *)

Lemma mapM_result_Forall2 {A B} (f : A -> result B) xs : forall ys,
  mapM_result f xs = Ok ys -> Forall2 (fun x y => f x = Ok y) xs ys.
Proof.
  induction xs as [|x xs IH]; simpl; intros ys.
  - intros [= <-]. constructor.
  - destruct (f x) as [y|e] eqn:Hx; cbn [mbind result_bind]; [|discriminate].
    destruct (mapM_result f xs) as [ys'|e]; cbn [mbind result_bind];
      [|discriminate].
    intros [= <-]. constructor; auto.
Qed.



(** ** C10: argument validation of [imp_url] *)




(** Without a conflict the same call creates, runs and dumps a stage. *)
Example imp_url_runs_demo :
  snd (ImpUrl.imp_url imp_env_demo (imp_args false false false None) [])
  = [ ImpUrl.StageCreate "data.csv.dvc" "/repo" "s3://bucket/data.csv" "data.csv";
      ImpUrl.AnnotUpdate; ImpUrl.CheckGraph; ImpUrl.Run false;
      ImpUrl.SetFrozen true; ImpUrl.Dump ].
Proof. reflexivity. Qed.

(** * Further properties of the code *)

(** ** The change classifier *)

Lemma str_app_nil_r (s : string) : s +:+ "" = s.
Proof.
  induction s as [|c s IH]; [done|].
  change (String c (s +:+ "") = String c s). by f_equal.
Qed.

Lemma str_app_assoc (s t u : string) : (s +:+ t) +:+ u = s +:+ (t +:+ u).
Proof.
  induction s as [|c s IH]; [done|].
  change (String c ((s +:+ t) +:+ u) = String c (s +:+ (t +:+ u))). by f_equal.
Qed.

Lemma join_app_empty sep (key : list string) :
  PyStr.join sep (key ++ [""])
  = if list_truthy key then PyStr.join sep key +:+ sep else "".
Proof.
  unfold PyStr.join.
  induction key as [|x key IH]; [done|].
  destruct key as [|y key].
  - change (x +:+ sep +:+ "" = x +:+ sep). by rewrite str_app_nil_r.
  - change (String.concat sep ((x :: y :: key) ++ [""]))
      with (x +:+ sep +:+ String.concat sep ((y :: key) ++ [""])).
    rewrite IH. simpl list_truthy. cbv iota.
    change (String.concat sep (x :: y :: key))
      with (x +:+ sep +:+ String.concat sep (y :: key)).
    by rewrite !str_app_assoc.
Qed.

Lemma _adapt_typ_in_names t : In t change_kinds -> In (_adapt_typ t) bucket_names.
Proof.
  unfold change_kinds. simpl.
  intros [<-|[<-|[<-|[<-|[<-|[]]]]]]; cbv; auto 10.
Qed.

(** X1. Records of the five kinds land in five different buckets, each one of
    [added], [deleted], [modified], [unchanged] and [unknown], so that none
    of them is [not_in_cache]; and a name that is already a bucket name is
    left as it is: [_adapt_typ] applied twice is [_adapt_typ]. *)
Theorem _adapt_typ_buckets :
  (forall t1 t2,
     In t1 change_kinds -> In t2 change_kinds ->
     _adapt_typ t1 = _adapt_typ t2 -> t1 = t2)
  /\ (forall t, In t change_kinds -> In (_adapt_typ t) kind_bucket_names)
  /\ existsb (String.eqb "not_in_cache") kind_bucket_names = false
  /\ (forall t, _adapt_typ (_adapt_typ t) = _adapt_typ t).
Proof.
  split; [|split; [|split]].
  - intros t1 t2 H1 H2. unfold change_kinds in *. simpl in H1, H2.
    destruct H1 as [<-|[<-|[<-|[<-|[<-|[]]]]]];
      destruct H2 as [<-|[<-|[<-|[<-|[<-|[]]]]]];
      (reflexivity || (cbv; discriminate)).
  - intros t Ht. unfold change_kinds in Ht. simpl in Ht.
    destruct Ht as [<-|[<-|[<-|[<-|[<-|[]]]]]]; cbv; auto 10.
  - reflexivity.
  - intros t. unfold _adapt_typ at 2 3.
    destruct (String.eqb t MODIFY) eqn:Hm; [reflexivity|].
    destruct (String.eqb t ADD) eqn:Ha; [reflexivity|].
    destruct (String.eqb t DELETE) eqn:Hd; [reflexivity|].
    unfold _adapt_typ. by rewrite Hm, Ha, Hd.
Qed.

(** X2. The path of a record is its key joined with the separator, followed by
    one more separator exactly when the record is a directory with a
    non-empty key; the directory flag is that of the new side when it has
    metadata, of the old side otherwise. A directory with the empty key is
    rendered as the empty string. *)
Theorem _adapt_path_trailing_separator os_sep c :
  _adapt_path os_sep c
  = PyStr.join os_sep (Change.key c)
    +:+ (if match side_meta c with Some m => isdir m | None => false end
            && list_truthy (Change.key c)
         then os_sep else "").
Proof.
  unfold _adapt_path, side_meta.
  destruct c as [typ old new key]. simpl.
  destruct new as [[nk [nm|] nh no]|]; simpl.
  - destruct (isdir nm); simpl; [|by rewrite str_app_nil_r].
    rewrite join_app_empty. destruct key; simpl; [done|reflexivity].
  - destruct old as [[ok [om|] oh oo]|]; simpl;
      try by rewrite str_app_nil_r.
    destruct (isdir om); simpl; [|by rewrite str_app_nil_r].
    rewrite join_app_empty. destruct key; simpl; [done|reflexivity].
  - destruct old as [[ok [om|] oh oo]|]; simpl;
      try by rewrite str_app_nil_r.
    destruct (isdir om); simpl; [|by rewrite str_app_nil_r].
    rewrite join_app_empty. destruct key; simpl; [done|reflexivity].
Qed.

Lemma bucket_nonempty_key k es :
  bucket k es ≠ [] -> In k (map fst es).
Proof.
  induction es as [|[k' p] es IH]; [done|].
  destruct (decide (k' = k)) as [->|Hne]; [by left|].
  rewrite bucket_cons_ne by done. right. by apply IH.
Qed.

Lemma emissions_keys os_sep wm c k :
  valid_typ c -> In k (map fst (emissions os_sep wm c)) -> In k bucket_names.
Proof.
  intros Hc. unfold emissions.
  destruct (skipped c); [intros []|].
  assert (Hk : In (_adapt_typ (Change.typ c)) bucket_names)
    by (by apply _adapt_typ_in_names).
  destruct (missing_in_cache wm c); simpl.
  - intros [<-|[<-|[]]]; [cbv; auto 10|done].
  - intros [<-|[]]. done.
Qed.

(** X3. Every key of the mapping that the classifier returns is one of
    [added], [deleted], [modified], [unchanged], [unknown] and
    [not_in_cache], as long as the diff primitive tags its records with its
    five kinds: the raw kinds [add], [modify] and [delete] never show. *)
Theorem _diff_keys_are_bucket_names os_sep diff old new granular with_missing k l :
  Forall valid_typ (diff old new true (negb granular) true true) ->
  _diff os_sep diff old new granular with_missing !! k = Some l ->
  In k bucket_names.
Proof.
  intros Hv. rewrite _diff_lookup.
  destruct (bucket k _) as [|p ps] eqn:E; [discriminate|]. intros _.
  assert (Hin : In k (map fst (flat_map (emissions os_sep with_missing)
                        (diff old new true (negb granular) true true)))).
  { apply bucket_nonempty_key. by rewrite E. }
  rewrite flat_map_concat_map, concat_map, map_map in Hin.
  apply in_concat in Hin as (ks & Hks & Hk).
  apply in_map_iff in Hks as (c & <- & Hc).
  eapply emissions_keys; [|exact Hk].
  eapply List.Forall_forall; eauto.
Qed.

Lemma _diff_keys_are_bucket_names_witness :
  _diff "/" diff_model staged_demo wtree_demo true true !! "added" = Some ["c.txt"]
  /\ In "added" bucket_names.
Proof.
  split; [vm_compute; reflexivity|].
  apply (_diff_keys_are_bucket_names "/" diff_model staged_demo wtree_demo
           true true "added" ["c.txt"]).
  - apply diff_model_tags_valid.
  - vm_compute. reflexivity.
Defined.

Lemma kind_bucket_of_emissions os_sep wm k cs :
  k ≠ "not_in_cache" ->
  bucket k (flat_map (emissions os_sep wm) cs)
  = map (_adapt_path os_sep)
        (List.filter
           (fun c => negb (skipped c) && String.eqb (_adapt_typ (Change.typ c)) k)
           cs).
Proof.
  intros Hk. induction cs as [|c cs IH]; [done|].
  simpl flat_map. rewrite bucket_app, IH. simpl List.filter.
  unfold emissions at 1.
  destruct (skipped c); [done|]. cbn [negb andb].
  rewrite bucket_app.
  assert (Hnic : bucket k (if missing_in_cache wm c
                           then [("not_in_cache", _adapt_path os_sep c)]
                           else []) = []).
  { destruct (missing_in_cache wm c); [|done]. by rewrite bucket_cons_ne. }
  rewrite Hnic. cbn [app].
  destruct (String.eqb_spec (_adapt_typ (Change.typ c)) k) as [->|Hne].
  - by rewrite bucket_cons_eq.
  - by rewrite bucket_cons_ne.
Qed.

(** X4. The bucket of a change kind lists, in the order in which the diff
    primitive reports them, the paths of exactly the records of that kind
    that are not suppressed; a missing bucket stands for no such record. *)
Theorem _diff_bucket_in_diff_order os_sep diff old new granular with_missing k :
  k ≠ "not_in_cache" ->
  bucket_of k (_diff os_sep diff old new granular with_missing)
  = map (_adapt_path os_sep)
        (List.filter
           (fun c => negb (skipped c) && String.eqb (_adapt_typ (Change.typ c)) k)
           (diff old new true (negb granular) true true)).
Proof.
  intros Hk. unfold bucket_of. rewrite _diff_lookup.
  rewrite kind_bucket_of_emissions by done.
  by destruct (map (_adapt_path os_sep) _).
Qed.

Lemma _diff_bucket_in_diff_order_witness :
  bucket_of "modified" (_diff "/" diff_model staged_demo wtree_demo true true)
  = ["b.txt"].
Proof.
  rewrite (_diff_bucket_in_diff_order "/" diff_model staged_demo wtree_demo
             true true "modified"); [reflexivity|discriminate].
Defined.

(** X5. Without [with_missing] the classifier produces no [not_in_cache] bucket,
    whatever the object stores hold, as long as the diff primitive tags its
    records with its five kinds. *)
Theorem _diff_without_missing_check os_sep diff old new granular :
  Forall valid_typ (diff old new true (negb granular) true true) ->
  _diff os_sep diff old new granular false !! "not_in_cache" = None.
Proof.
  intros Hv. rewrite _diff_lookup, bucket_not_in_cache by done.
  induction (diff old new true (negb granular) true true) as [|c cs IH];
    [done|].
  apply Forall_cons in Hv as [_ Hv]. simpl.
  rewrite andb_false_r. by apply IH.
Qed.

Lemma _diff_without_missing_check_witness :
  _diff "/" diff_model staged_demo wtree_demo true false !! "not_in_cache" = None
  /\ _diff "/" diff_model staged_demo wtree_demo true true !! "not_in_cache"
     = Some ["a.txt"].
Proof.
  split.
  - apply (_diff_without_missing_check "/" diff_model staged_demo wtree_demo true).
    apply diff_model_tags_valid.
  - vm_compute. reflexivity.
Defined.

Lemma emissions_of_unsuppressed os_sep wm cs :
  flat_map (emissions os_sep wm) (List.filter (fun c => negb (skipped c)) cs)
  = flat_map (emissions os_sep wm) cs.
Proof.
  induction cs as [|c cs IH]; [done|]. simpl.
  destruct (skipped c) eqn:Hs; simpl.
  - rewrite IH. unfold emissions at 2. by rewrite Hs.
  - by rewrite IH.
Qed.

(** X6. A suppressed record (an unchanged record without hashes on either side,
    an unknown record without a new side) leaves no trace in the result, not
    even in [not_in_cache]: a primitive that does not report the suppressed
    records gives the same mapping. *)
Theorem _diff_ignores_suppressed os_sep diff diff' old new granular with_missing :
  diff' old new true (negb granular) true true
  = List.filter (fun c => negb (skipped c))
                (diff old new true (negb granular) true true) ->
  _diff os_sep diff' old new granular with_missing
  = _diff os_sep diff old new granular with_missing.
Proof.
  intros Hd. unfold _diff. rewrite Hd, !fold_diff_steps.
  by rewrite emissions_of_unsuppressed.
Qed.

Lemma _diff_ignores_suppressed_witness :
  length (diff_model_unsuppressed staged_demo wtree_demo true false true true) = 3
  /\ length (diff_model staged_demo wtree_demo true false true true) = 4
  /\ _diff "/" diff_model_unsuppressed staged_demo wtree_demo true true
     = _diff "/" diff_model staged_demo wtree_demo true true.
Proof.
  split; [reflexivity|]. split; [reflexivity|].
  apply (_diff_ignores_suppressed "/" diff_model diff_model_unsuppressed
           staged_demo wtree_demo true true).
  reflexivity.
Defined.

Lemma total_paths_emit ret kp : total_paths (emit ret kp) = S (total_paths ret).
Proof.
  destruct kp as [k p]. unfold total_paths, emit. cbn [fst snd].
  assert (Hcomm : forall (m : gmap string (list string)) j1 j2 z1 z2 y,
            j1 ≠ j2 -> m !! j1 = Some z1 -> m !! j2 = Some z2 ->
            length z1 + (length z2 + y) = length z2 + (length z1 + y))
    by (intros; lia).
  destruct (ret !! k) as [l|] eqn:E.
  - rewrite (map_fold_delete_L _ _ k (l ++ [p]) (alter _ k ret)).
    + rewrite delete_alter_eq.
      rewrite (map_fold_delete_L _ _ k l ret) by (eauto; done).
      rewrite length_app. simpl. lia.
    + apply Hcomm.
    + by rewrite lookup_alter_eq, E.
  - rewrite alter_insert_eq. simpl.
    rewrite map_fold_insert_L; [simpl; lia| |done].
    apply Hcomm.
Qed.

Lemma total_paths_fold_emit es : forall ret,
  total_paths (fold_left emit es ret) = length es + total_paths ret.
Proof.
  induction es as [|kp es IH]; intros ret; [done|].
  simpl. rewrite IH, total_paths_emit. lia.
Qed.

Lemma length_emissions os_sep wm cs :
  length (flat_map (emissions os_sep wm) cs)
  = length (List.filter (fun c => negb (skipped c)) cs)
    + length (List.filter (fun c => negb (skipped c) && missing_in_cache wm c) cs).
Proof.
  induction cs as [|c cs IH]; [done|].
  simpl. rewrite length_app, IH. unfold emissions.
  destruct (skipped c); simpl; [done|].
  destruct (missing_in_cache wm c); simpl; lia.
Qed.

(** X7. No path is lost or made up: the mapping returned by the classifier
    holds, over all its buckets, one path for every record that is not
    suppressed and one more for every such record whose old object is
    missing from the cache when [with_missing] is set. *)
Theorem _diff_counts_every_record os_sep diff old new granular with_missing :
  total_paths (_diff os_sep diff old new granular with_missing)
  = length (List.filter (fun c => negb (skipped c))
                        (diff old new true (negb granular) true true))
    + length (List.filter
                (fun c => negb (skipped c) && missing_in_cache with_missing c)
                (diff old new true (negb granular) true true)).
Proof.
  unfold _diff. rewrite fold_diff_steps, total_paths_fold_emit, length_emissions.
  unfold total_paths. rewrite map_fold_empty. lia.
Qed.

(** ** Separator conversion and the SCM status adapter *)

Lemma contains_char_app c s t :
  contains_char c (s +:+ t) = contains_char c s || contains_char c t.
Proof.
  induction s as [|c' s IH]; [done|].
  change (Ascii.eqb c' c || contains_char c (s +:+ t)
          = Ascii.eqb c' c || contains_char c s || contains_char c t).
  rewrite IH. by rewrite orb_assoc.
Qed.

(** X8. Where the native separator is the forward slash the conversion changes
    nothing; where the separator holds no forward slash, no forward slash
    is left in the converted path; and a one-character separator keeps the
    length of the path. *)
Theorem posixpath_to_os_path_separators os_sep :
  (os_sep = "/" -> forall path, posixpath_to_os_path os_sep path = path)
  /\ (contains_char "/" os_sep = false ->
      forall path, contains_char "/" (posixpath_to_os_path os_sep path) = false)
  /\ (String.length os_sep = 1 ->
      forall path,
        String.length (posixpath_to_os_path os_sep path) = String.length path).
Proof.
  unfold posixpath_to_os_path. split; [|split].
  - intros -> path. induction path as [|c path IH]; [done|].
    simpl. destruct (Ascii.eqb_spec c "/") as [->|Hc].
    + change (String "/" (PyStr.replace_char "/" "/" path) = String "/" path).
      by f_equal.
    + by f_equal.
  - intros Hsep path. induction path as [|c path IH]; [done|].
    simpl. destruct (Ascii.eqb c "/") eqn:Hc.
    + by rewrite contains_char_app, Hsep, IH.
    + simpl. by rewrite Hc, IH.
  - intros Hlen path. induction path as [|c path IH]; [done|].
    simpl. destruct (Ascii.eqb c "/").
    + destruct os_sep as [|c1 [|c2 rest]]; try discriminate.
      change (S (String.length (PyStr.replace_char "/" (String c1 "") path))
              = S (String.length path)).
      by f_equal.
    + simpl. by f_equal.
Qed.

Lemma clean_partitions (st un : gmap string (list string)) (unt : list string) :
  dict_truthy st || dict_truthy un || list_truthy unt = false
  <-> st = ∅ /\ un = ∅ /\ unt = [].
Proof.
  unfold dict_truthy. rewrite !orb_false_iff, !negb_false_iff.
  rewrite !bool_decide_eq_true. destruct unt; simpl; intuition congruence.
Qed.

Lemma list_truthy_map {A B} (f : A -> B) (l : list A) :
  list_truthy (map f l) = list_truthy l.
Proof. by destruct l. Qed.

(** X9. A record returned by the SCM status adapter holds the staged and
    unstaged partitions as the backend reported them and as many untracked
    paths as it reported (the same paths unless the host is [nt]), and its
    [is_dirty] is false exactly when the three are empty. *)
Theorem _git_info_record os_sep os_name scm uf g :
  _git_info os_sep os_name scm uf = Ok (Some g) ->
  exists backend st un unt,
    scm = Git backend
    /\ git_status backend uf = Ok (st, un, unt)
    /\ staged g = st /\ unstaged g = un
    /\ length (untracked g) = length unt
    /\ (String.eqb os_name "nt" = false -> untracked g = unt)
    /\ (is_dirty g = false <-> st = ∅ /\ un = ∅ /\ unt = []).
Proof.
  unfold _git_info. destruct scm as [root|backend]; [discriminate|].
  intros H.
  assert (Hrec : exists empty_repo st un unt,
    git_status backend uf = Ok (st, un, unt)
    /\ g = {| staged := st; unstaged := un;
              untracked := if String.eqb os_name "nt"
                           then map (posixpath_to_os_path os_sep) unt else unt;
              is_empty := empty_repo;
              is_dirty := dict_truthy st || dict_truthy un
                          || list_truthy
                               (if String.eqb os_name "nt"
                                then map (posixpath_to_os_path os_sep) unt
                                else unt) |}).
  { destruct (get_rev backend) as [rev|e]; cbn [mbind result_bind] in H.
    2: destruct (isinstance e _); cbn [mbind result_bind] in H; [|discriminate].
    all: destruct (git_status backend uf) as [[[st un] unt]|e'];
      cbn [mbind result_bind] in H; [|discriminate].
    all: injection H as <-; eauto 10. }
  destruct Hrec as (er & st & un & unt & Hst & ->).
  exists backend, st, un, unt. cbn [staged unstaged untracked is_dirty].
  split; [done|]. split; [done|]. split; [done|]. split; [done|].
  split; [|split].
  - destruct (String.eqb os_name "nt"); [apply length_map|done].
  - by intros ->.
  - rewrite <- clean_partitions.
    destruct (String.eqb os_name "nt"); [by rewrite list_truthy_map|done].
Qed.

Lemma _git_info_record_witness :
  exists g,
    _git_info "/" "posix" (Git git_demo) "all" = Ok (Some g)
    /\ untracked g = ["a/b/sub/x.txt"; "other/y.txt"]
    /\ is_dirty g = true.
Proof.
  assert (Hg : exists g, _git_info "/" "posix" (Git git_demo) "all" = Ok (Some g))
    by (eexists; reflexivity).
  destruct Hg as [g Hg]. exists g. split; [exact Hg|].
  destruct (_git_info_record "/" "posix" (Git git_demo) "all" g Hg)
    as (backend & st & un & unt & Hscm & Hst & _ & _ & _ & Hunt & _).
  injection Hscm as <-. injection Hst as <- <- <-.
  split; [exact (Hunt eq_refl)|].
  injection Hg as <-. reflexivity.
Defined.

(** ** The two comparers *)

Lemma head_index_fold_workspace (states : list (string * DataIndex)) :
  forall acc : option DataIndex,
  Forall (fun st => st.1 = "workspace") states ->
  fold_left
    (fun head_index '(rev, index_at_rev) =>
       if String.eqb rev "workspace" then head_index else Some index_at_rev)
    states acc = acc.
Proof.
  induction states as [|[rev idx] states IH]; intros acc Hall; [done|].
  apply Forall_cons in Hall as [Hrev Hall]. simpl in Hrev. subst rev.
  simpl. by apply IH.
Qed.

(** X10. The commit comparer classifies the index of the last state that is not
    the workspace, wherever workspace states occur among the states that the
    revision iterator yields: earlier revisions are overwritten, and the
    workspace is passed over. *)
Theorem _diff_head_to_index_last_revision
    os_sep diff repo head kwargs earlier rev index_at_rev later :
  brancher repo [head] = (earlier ++ (rev, index_at_rev) :: later, None) ->
  String.eqb rev "workspace" = false ->
  Forall (fun st => st.1 = "workspace") later ->
  _diff_head_to_index os_sep diff repo head kwargs
  = call_diff os_sep diff index_at_rev (index_data_repo repo) None kwargs.
Proof.
  intros Hb Hrev Hlater. unfold _diff_head_to_index. rewrite Hb.
  unfold head_index_after. rewrite fold_left_app. simpl. rewrite Hrev.
  by rewrite head_index_fold_workspace.
Qed.

Lemma _diff_head_to_index_last_revision_witness :
  _diff_head_to_index "/" diff_model repo_demo "HEAD" kwargs_demo
  = Ok (_diff "/" diff_model head_demo staged_demo true false).
Proof.
  rewrite (_diff_head_to_index_last_revision "/" diff_model repo_demo "HEAD"
             kwargs_demo [("workspace", staged_demo)] "abc123" head_demo []
             eq_refl eq_refl (Forall_nil_2 _)).
  reflexivity.
Defined.

(** X11. Building the snapshot of the working tree comes first: when it
    raises, the workspace comparer and [status] raise its exception, whatever
    the keywords. Once it is built, the comparer cannot be given
    [with_missing], which it passes itself, nor a keyword that [_diff] does
    not have: it raises [TypeError], and so does [status], before any
    revision or SCM state is looked at. With any other keywords it returns
    the classification of the staged index against the working-tree
    snapshot, with missing-cache detection. *)
Theorem workspace_comparer_keywords os_sep os_name diff repo kwargs :
  (forall e,
     build_data_index repo = Raise e ->
     _diff_index_to_wtree os_sep diff repo kwargs = Raise e
     /\ forall uf head,
          status os_sep os_name diff repo uf head kwargs = Raise e)
  /\ (forall workspace,
        build_data_index repo = Ok workspace ->
        (rejected_kwargs kwargs = true ->
         exists msg,
           _diff_index_to_wtree os_sep diff repo kwargs = Raise (TypeError msg)
           /\ forall uf head,
                status os_sep os_name diff repo uf head kwargs
                = Raise (TypeError msg))
        /\ (rejected_kwargs kwargs = false ->
            _diff_index_to_wtree os_sep diff repo kwargs
            = Ok (_diff os_sep diff (index_data_repo repo) workspace
                        (default false (kw_granular kwargs)) true))).
Proof.
  unfold rejected_kwargs, status, _diff_index_to_wtree, call_diff.
  split.
  - intros e ->. by cbn [mbind result_bind].
  - intros workspace ->. cbn [mbind result_bind].
    destruct (kw_with_missing kwargs) as [b|]; simpl.
    + split; [|discriminate]. intros _. eexists. split; reflexivity.
    + destruct (kw_other kwargs) as [|k ks]; simpl.
      * split; [discriminate|done].
      * split; [|discriminate]. intros _. eexists. split; reflexivity.
Qed.

Lemma workspace_comparer_keywords_witness :
  (exists msg,
     status "/" "posix" diff_model repo_demo "all" None
       {| kw_granular := None; kw_with_missing := Some false; kw_other := [] |}
     = Raise (TypeError msg))
  /\ (exists unc,
        _diff_index_to_wtree "/" diff_model repo_demo kwargs_demo = Ok unc)
  /\ status "/" "posix" diff_model repo_unbuilt "all" None
       {| kw_granular := None; kw_with_missing := Some false; kw_other := [] |}
     = Raise (PermissionError "data/raw").
Proof.
  split; [|split].
  - destruct (proj1 (proj2 (workspace_comparer_keywords "/" "posix" diff_model
                              repo_demo
                              {| kw_granular := None; kw_with_missing := Some false;
                                 kw_other := [] |}) wtree_demo eq_refl) eq_refl)
      as (msg & _ & Hs).
    exists msg. apply Hs.
  - eexists.
    exact (proj2 (proj2 (workspace_comparer_keywords "/" "posix" diff_model
                           repo_demo kwargs_demo) wtree_demo eq_refl) eq_refl).
  - exact (proj2 (proj1 (workspace_comparer_keywords "/" "posix" diff_model
                           repo_unbuilt
                           {| kw_granular := None; kw_with_missing := Some false;
                              kw_other := [] |})
                    (PermissionError "data/raw") eq_refl) "all" None).
Defined.

(** ** The path translator and the report *)

Lemma mapM_result_length {A B} (f : A -> result B) xs ys :
  mapM_result f xs = Ok ys -> length ys = length xs.
Proof.
  intros H. apply mapM_result_Forall2 in H.
  symmetry. eapply Forall2_length, H.
Qed.

Lemma filter_length_le {A} (p : A -> bool) (l : list A) :
  length (List.filter p l) <= length l.
Proof.
  induction l as [|x l IH]; simpl; [lia|].
  destruct (p x); simpl; lia.
Qed.

Lemma _transform_length os_sep repo files outs :
  _transform_git_paths_to_dvc os_sep repo files = Ok outs ->
  length outs <= length files.
Proof.
  unfold _transform_git_paths_to_dvc.
  destruct (fs_relpath repo (root_dir repo) _) as [rel|e];
    cbn [mbind result_bind]; [|discriminate].
  destruct (fs_relpath repo (fs_getcwd repo) _) as [start|e];
    cbn [mbind result_bind]; [|discriminate].
  set (kept := if negb (is_curdir_or_empty (PyStr.rstrip_char "/" rel))
               then _ else files).
  assert (Hkept : length kept <= length files).
  { unfold kept. destruct (negb _); [|lia].
    rewrite length_map. apply filter_length_le. }
  destruct (is_curdir_or_empty start).
  - intros [= <-]. exact Hkept.
  - intros H%mapM_result_length. lia.
Qed.

Lemma _transform_git_paths_to_dvc_empty os_sep repo outs :
  _transform_git_paths_to_dvc os_sep repo [] = Ok outs -> outs = [].
Proof.
  intros H. apply _transform_length in H.
  destruct outs; [done|]. simpl in H. lia.
Qed.

(** X12. The path translator never makes up a path: what it returns is no longer
    than what it is given, so that no untracked file gives no path. *)
Theorem _transform_git_paths_to_dvc_shrinks os_sep repo files outs :
  _transform_git_paths_to_dvc os_sep repo files = Ok outs ->
  length outs <= length files /\ (files = [] -> outs = []).
Proof.
  intros H. pose proof (_transform_length _ _ _ _ H) as Hlen.
  split; [exact Hlen|]. intros ->. destruct outs; [done|]. simpl in Hlen. lia.
Qed.

Lemma _transform_git_paths_to_dvc_shrinks_witness :
  _transform_git_paths_to_dvc "/" repo_demo ["a/b/sub/x.txt"; "other/y.txt"]
  = Ok ["../x.txt"]
  /\ length ["../x.txt"] <= length ["a/b/sub/x.txt"; "other/y.txt"].
Proof.
  split; [reflexivity|].
  exact (proj1 (_transform_git_paths_to_dvc_shrinks "/" repo_demo
                  ["a/b/sub/x.txt"; "other/y.txt"] ["../x.txt"] eq_refl)).
Defined.

(** X13. When the data repository sits at the SCM root and the current directory
    is that root, the SCM paths are returned as they are: nothing is
    filtered and nothing is rewritten. *)
Theorem _transform_git_paths_to_dvc_at_root os_sep repo files rel start :
  fs_relpath repo (root_dir repo) (scm_root_dir (scm repo)) = Ok rel ->
  is_curdir_or_empty (PyStr.rstrip_char "/" rel) = true ->
  fs_relpath repo (fs_getcwd repo) (root_dir repo) = Ok start ->
  is_curdir_or_empty start = true ->
  _transform_git_paths_to_dvc os_sep repo files = Ok files.
Proof.
  intros Hrel Hroot Hstart Hcwd. unfold _transform_git_paths_to_dvc.
  rewrite Hrel. cbn [mbind result_bind]. rewrite Hroot. cbn [negb].
  rewrite Hstart. cbn [mbind result_bind]. by rewrite Hcwd.
Qed.

Lemma _transform_git_paths_to_dvc_at_root_witness :
  _transform_git_paths_to_dvc "/" repo_fresh ["x.txt"; "dir/y.txt"]
  = Ok ["x.txt"; "dir/y.txt"].
Proof.
  apply (_transform_git_paths_to_dvc_at_root "/" repo_fresh
           ["x.txt"; "dir/y.txt"] "." ".");
    reflexivity.
Defined.

(** X14. A report of [status] keeps everything else of the two diffs: its
    [not_in_cache] list is the [not_in_cache] bucket of the uncommitted
    diff, its [uncommitted] mapping agrees with the uncommitted diff on
    every other key but [unchanged], and its [committed] mapping agrees with
    the committed diff on every key but [unchanged] (and is empty when that
    diff was not available). *)
Theorem status_keeps_the_diffs os_sep os_name diff repo uf head kwargs report :
  status os_sep os_name diff repo uf head kwargs = Ok report ->
  exists unc,
    _diff_index_to_wtree os_sep diff repo kwargs = Ok unc
    /\ st_not_in_cache report = bucket_of "not_in_cache" unc
    /\ (forall k, k ≠ "unchanged" -> k ≠ "not_in_cache" ->
                  st_uncommitted report !! k = unc !! k)
    /\ match _diff_head_to_index os_sep diff repo (default "HEAD" head) kwargs with
       | Ok comm =>
           forall k, k ≠ "unchanged" -> st_committed report !! k = comm !! k
       | Raise _ => st_committed report = ∅
       end.
Proof.
  intros H. apply status_inv in H as (unc & cu & g & u & Hunc & Hcu & Hg & ->).
  exists unc. cbn [st_not_in_cache st_uncommitted st_committed].
  split; [done|]. split; [done|]. split.
  - intros k H1 H2. by rewrite !lookup_delete_ne.
  - unfold committed_and_unchanged, pop_list in Hcu.
    destruct (_diff_head_to_index _ _ _ _ _) as [comm|e].
    + injection Hcu as <-. intros k Hk. cbn [fst]. by rewrite lookup_delete_ne.
    + destruct (caught_by _ e); [|discriminate]. by injection Hcu as <-.
Qed.

Lemma status_keeps_the_diffs_witness :
  exists report,
    status "/" "posix" diff_model repo_demo "all" None kwargs_demo = Ok report
    /\ st_not_in_cache report = ["a.txt"]
    /\ st_uncommitted report !! "added" = Some ["c.txt"].
Proof.
  assert (Hs : exists report,
             status "/" "posix" diff_model repo_demo "all" None kwargs_demo
             = Ok report)
    by (eexists; vm_compute; reflexivity).
  destruct Hs as [report Hr]. exists report. split; [exact Hr|].
  destruct (status_keeps_the_diffs _ _ _ _ _ _ _ _ Hr)
    as (unc & Hunc & Hnic & Hkeep & _).
  injection Hunc as <-. split; [exact Hnic|].
  rewrite Hkeep by discriminate. vm_compute. reflexivity.
Defined.

(** X15. Without an SCM backend a report of [status] carries no SCM record and
    lists no untracked file. *)
Theorem status_without_scm os_sep os_name diff repo uf head kwargs root report :
  scm repo = NoSCM root ->
  status os_sep os_name diff repo uf head kwargs = Ok report ->
  st_git report = None /\ st_untracked report = [].
Proof.
  intros Hscm H. unfold status in H.
  step_result H unc e Hunc.
  unfold pop_list in H. cbn [fst snd] in H.
  step_result H cu e Hcu. destruct cu as [comm unchanged].
  rewrite Hscm in H. cbn [_git_info mbind result_bind] in H.
  step_result H u e Hu. injection H as <-. cbn [st_git st_untracked].
  split; [done|].
  by apply (_transform_git_paths_to_dvc_empty _ _ _ Hu).
Qed.

Lemma status_without_scm_witness :
  exists report,
    status "/" "posix" diff_model repo_noscm "all" None kwargs_demo = Ok report
    /\ st_git report = None /\ st_untracked report = [].
Proof.
  assert (Hs : exists report,
             status "/" "posix" diff_model repo_noscm "all" None kwargs_demo
             = Ok report)
    by (eexists; vm_compute; reflexivity).
  destruct Hs as [report Hr]. exists report. split; [exact Hr|].
  exact (status_without_scm "/" "posix" diff_model repo_noscm "all" None
           kwargs_demo "/data" report eq_refl Hr).
Defined.

(** ** [ls] *)

Lemma ls_targets_app repo recursive ts us :
  Ls.ls_targets repo recursive (ts ++ us)
  = match Ls.ls_targets repo recursive ts with
    | (items, Some e) => (items, Some e)
    | (items, None) =>
        let '(later, failure) := Ls.ls_targets repo recursive us in
        (items ++ later, failure)
    end.
Proof.
  induction ts as [|t ts IH]; simpl.
  - by destruct (Ls.ls_targets repo recursive us).
  - destruct (Ls.collect_granular repo t recursive) as [pairs|e]; [|done].
    rewrite IH.
    destruct (Ls.ls_targets repo recursive ts) as [items [e|]]; [done|].
    destruct (Ls.ls_targets repo recursive us) as [later failure].
    by rewrite app_assoc.
Qed.

(** X16. Listing several targets is listing them one after the other: the
    dictionaries of the first group of targets come first, then those of the
    second group; when a target of the first group cannot be collected, what
    was yielded before it stands and the second group is not looked at. No
    target and the empty list of targets both mean the one target [None]. *)
Theorem ls_lists_targets_in_turn repo recursive t ts u us :
  Ls.ls repo (Some ((t :: ts) ++ u :: us)) recursive
  = match Ls.ls repo (Some (t :: ts)) recursive with
    | (items, Some e) => (items, Some e)
    | (items, None) =>
        let '(later, failure) := Ls.ls repo (Some (u :: us)) recursive in
        (items ++ later, failure)
    end
  /\ Ls.ls repo None recursive = Ls.ls repo (Some [None]) recursive
  /\ Ls.ls repo (Some []) recursive = Ls.ls repo (Some [None]) recursive.
Proof.
  split; [|by split].
  unfold Ls.ls.
  change (match (t :: ts) ++ u :: us with
          | [] => [None]
          | t' :: ts' => t' :: ts'
          end) with ((t :: ts) ++ u :: us).
  apply ls_targets_app.
Qed.

Lemma item_of_out out :
  Ls.item out !! "path"
  = Some (default (Ls.PStr (Ls.out_str out)) (Ls.annot_to_dict out !! "path"))
  /\ forall k, k ≠ "path" -> Ls.item out !! k = Ls.annot_to_dict out !! k.
Proof.
  unfold Ls.item. split.
  - rewrite lookup_union. rewrite lookup_singleton_eq.
    by destruct (Ls.annot_to_dict out !! "path").
  - intros k Hk. rewrite lookup_union, lookup_singleton_ne by done.
    by destruct (Ls.annot_to_dict out !! k).
Qed.

(** X17. Listing one target that can be collected yields, without failure, one
    dictionary per output that the collected stages keep under their
    filter, in order; each holds the annotations of its output and, under
    [path], the output's path, unless the annotations have a [path] of their
    own, which then wins. *)
Theorem ls_one_dictionary_per_output repo recursive target pairs :
  Ls.collect_granular repo target recursive = Ok pairs ->
  exists items,
    Ls.ls repo (Some [target]) recursive = (items, None)
    /\ Forall2
         (fun out d =>
            d !! "path"
            = Some (default (Ls.PStr (Ls.out_str out))
                            (Ls.annot_to_dict out !! "path"))
            /\ forall k, k ≠ "path" -> d !! k = Ls.annot_to_dict out !! k)
         (outs_of_pairs pairs) items.
Proof.
  intros Hc. unfold Ls.ls. simpl. rewrite Hc.
  eexists. split; [reflexivity|]. rewrite app_nil_r.
  unfold Ls.items_of_pairs, outs_of_pairs. clear Hc.
  induction pairs as [|[stage fi] pairs IH]; simpl; [constructor|].
  apply Forall2_app; [|exact IH].
  induction (Ls.filter_outs stage fi) as [|out outs IHo]; simpl; constructor;
    [apply item_of_out|exact IHo].
Qed.

Lemma ls_one_dictionary_per_output_witness :
  exists items,
    Ls.ls ls_repo_demo (Some [None]) false = (items, None)
    /\ Forall2
         (fun out d =>
            d !! "path"
            = Some (default (Ls.PStr (Ls.out_str out))
                            (Ls.annot_to_dict out !! "path"))
            /\ forall k, k ≠ "path" -> d !! k = Ls.annot_to_dict out !! k)
         [out_data; out_model] items.
Proof.
  exact (ls_one_dictionary_per_output ls_repo_demo false None
           [(stage_of [out_data], None); (stage_of [out_model], None)] eq_refl).
Defined.

(** With an unknown target after a known one, the dictionary of the known
    target is yielded before the failure. *)
Example ls_failure_demo :
  Ls.ls ls_repo_demo (Some [Some "model.pkl"; Some "nope"]) false
  = ([ {["path" := Ls.PStr "model.pkl"]} ], Some (NoOutputOrStageError "nope")).
Proof. reflexivity. Qed.

(** ** [imp_url] beyond the validation of its flags *)

Ltac imp_unfold :=
  unfold ImpUrl.imp_url, ImpUrl.perform, ImpUrl.tell, ImpUrl.raise, ImpUrl.lift,
    mbind, mret, ImpUrl.M_bind, ImpUrl.M_ret, fmap, option_fmap, option_map;
  cbn beta iota zeta.

(** Case analysis on a scrutinee that holds no other case analysis. *)
Ltac leaf_case :=
  match goal with
  | |- context [match ?x with _ => _ end] =>
      lazymatch x with
      | context [match _ with _ => _ end] => fail
      | _ => destruct x eqn:?
      end
  end.

Ltac imp_cases := repeat (leaf_case; cbn beta iota zeta).

(** [imp_url] only appends to the log, and what it appends and returns does
    not depend on what the log holds. *)
Lemma imp_url_log env a log :
  ImpUrl.imp_url env a log
  = (fst (ImpUrl.imp_url env a []), log ++ snd (ImpUrl.imp_url env a [])).
Proof.
  imp_unfold. imp_cases.
  all: cbn [fst snd app]; rewrite <- ?app_assoc, ?app_nil_r; reflexivity.
Qed.

Lemma imp_url_modes env a :
  let evs := snd (ImpUrl.imp_url env a []) in
  length (List.filter is_mode evs) <= 1
  /\ (ImpUrl.no_exec a = true ->
      existsb is_run evs = false /\ existsb is_transfer evs = false)
  /\ (ImpUrl.to_remote a = true -> existsb is_run evs = false)
  /\ (ImpUrl.to_remote a = false -> existsb is_transfer evs = false).
Proof.
  cbv zeta. imp_unfold.
  destruct (ImpUrl.to_remote a) eqn:Ht, (ImpUrl.no_exec a) eqn:Hn;
    cbn beta iota zeta; imp_cases.
  all: cbn; repeat split; first [lia | done | discriminate].
Qed.

(** X18. Whatever its arguments and whatever its collaborators do, [imp_url]
    handles the stage in at most one of its three modes (outputs ignored,
    transfer to a remote, run): with [no_exec] it neither runs nor
    transfers, with [to_remote] it never runs, and without [to_remote] it
    never transfers. *)
Theorem imp_url_one_mode env a log :
  exists evs,
    snd (ImpUrl.imp_url env a log) = log ++ evs
    /\ length (List.filter is_mode evs) <= 1
    /\ (ImpUrl.no_exec a = true ->
        existsb is_run evs = false /\ existsb is_transfer evs = false)
    /\ (ImpUrl.to_remote a = true -> existsb is_run evs = false)
    /\ (ImpUrl.to_remote a = false -> existsb is_transfer evs = false).
Proof.
  exists (snd (ImpUrl.imp_url env a [])).
  split; [by rewrite imp_url_log|]. apply imp_url_modes.
Qed.

Lemma imp_url_success_shape env a :
  match ImpUrl.imp_url env a [] with
  | (Ok stage, evs) =>
      head evs = Some (ImpUrl.StageCreate (ImpUrl.stage_fname stage)
                         (ImpUrl.stage_wdir stage) (ImpUrl.stage_dep stage)
                         (ImpUrl.stage_out stage))
      /\ last evs = Some ImpUrl.Dump
      /\ length (List.filter is_create evs) = 1
      /\ length (List.filter is_dump evs) = 1
      /\ length (List.filter is_mode evs) = 1
      /\ In (ImpUrl.SetFrozen (ImpUrl.frozen a)) evs
      /\ ImpUrl.stage_frozen stage = ImpUrl.frozen a
  | (Raise e, evs) =>
      existsb is_dump evs = false \/ ImpUrl.dump_raises env = Some e
  end.
Proof.
  imp_unfold. imp_cases.
  all: cbn; first [by left | by right | repeat split; auto 10].
Qed.

(** X19. A stage that [imp_url] returns has been created first and once, handled
    in exactly one mode, frozen as asked, and dumped last and once; the
    events say so, and the stage returned is the one created. *)
Theorem imp_url_returns_dumped_stage env a log stage log' :
  ImpUrl.imp_url env a log = (Ok stage, log') ->
  exists evs,
    log' = log ++ evs
    /\ head evs = Some (ImpUrl.StageCreate (ImpUrl.stage_fname stage)
                          (ImpUrl.stage_wdir stage) (ImpUrl.stage_dep stage)
                          (ImpUrl.stage_out stage))
    /\ last evs = Some ImpUrl.Dump
    /\ length (List.filter is_create evs) = 1
    /\ length (List.filter is_dump evs) = 1
    /\ length (List.filter is_mode evs) = 1
    /\ In (ImpUrl.SetFrozen (ImpUrl.frozen a)) evs
    /\ ImpUrl.stage_frozen stage = ImpUrl.frozen a.
Proof.
  rewrite imp_url_log. intros H.
  pose proof (imp_url_success_shape env a) as Hs.
  destruct (ImpUrl.imp_url env a []) as [r evs]. cbn [fst snd] in H.
  injection H as -> <-. exists evs. by split.
Qed.

Lemma imp_url_returns_dumped_stage_witness :
  exists stage evs,
    ImpUrl.imp_url imp_env_demo (imp_args false false false None) []
    = (Ok stage, evs)
    /\ last evs = Some ImpUrl.Dump
    /\ length (List.filter is_mode evs) = 1.
Proof.
  assert (Hr : exists stage evs,
             ImpUrl.imp_url imp_env_demo (imp_args false false false None) []
             = (Ok stage, evs))
    by (eexists; eexists; vm_compute; reflexivity).
  destruct Hr as (stage & evs & Hr). exists stage, evs. split; [exact Hr|].
  destruct (imp_url_returns_dumped_stage _ _ _ _ _ Hr)
    as (evs' & Heq & _ & Hlast & _ & _ & Hmode & _).
  simpl in Heq. subst evs'. by split.
Defined.

(** X20. When [imp_url] raises after having dumped the stage file, the exception
    is the one of the dump itself: a failure of any earlier step (resolving
    the output, validating the flags, creating the stage, checking the
    graph, running or transferring) leaves no stage file written. *)
Theorem imp_url_failure_before_dump env a log e log' :
  ImpUrl.imp_url env a log = (Raise e, log') ->
  exists evs,
    log' = log ++ evs
    /\ (existsb is_dump evs = false \/ ImpUrl.dump_raises env = Some e).
Proof.
  rewrite imp_url_log. intros H.
  pose proof (imp_url_success_shape env a) as Hs.
  destruct (ImpUrl.imp_url env a []) as [r evs]. cbn [fst snd] in H.
  injection H as -> <-. exists evs. by split.
Qed.

Lemma imp_url_failure_before_dump_witness :
  (exists evs,
     ImpUrl.imp_url imp_env_duplicate (imp_args false false false None) []
     = (Raise (OutputDuplicationError "data.csv"), evs)
     /\ existsb is_dump evs = false)
  /\ exists evs,
       ImpUrl.imp_url imp_env_readonly (imp_args false false false None) []
       = (Raise (PermissionError "data.csv.dvc"), evs)
       /\ existsb is_dump evs = true.
Proof.
  split.
  - assert (Hr : exists evs,
               ImpUrl.imp_url imp_env_duplicate (imp_args false false false None) []
               = (Raise (OutputDuplicationError "data.csv"), evs))
      by (eexists; vm_compute; reflexivity).
    destruct Hr as (evs & Hr). exists evs. split; [exact Hr|].
    destruct (imp_url_failure_before_dump _ _ _ _ _ Hr) as (evs' & Heq & Hd).
    simpl in Heq. subst evs'. destruct Hd as [Hd|Hd]; [exact Hd|discriminate Hd].
  - eexists. split; vm_compute; reflexivity.
Defined.

Lemma imp_url_early_failure env a :
  is_Some (ImpUrl.create_raises env) \/ is_Some (ImpUrl.check_graph_raises env) ->
  exists e evs,
    ImpUrl.imp_url env a [] = (Raise e, evs)
    /\ existsb is_mode evs = false /\ existsb is_dump evs = false.
Proof.
  intros H. imp_unfold.
  destruct (ImpUrl.create_raises env) as [e1|] eqn:Hc;
    destruct (ImpUrl.check_graph_raises env) as [e2|] eqn:Hg;
    cbn beta iota zeta; imp_cases.
  all: try (eexists; eexists; split; [reflexivity|]; by cbn).
  all: destruct H as [[? H]|[? H]]; discriminate H.
Qed.

(** X21. When the stage cannot be created or the graph check fails (an output
    that another stage already has, say), [imp_url] raises without having
    ignored, run or transferred anything and without dumping a stage
    file. *)
Theorem imp_url_stops_at_failed_check env a log :
  is_Some (ImpUrl.create_raises env) \/ is_Some (ImpUrl.check_graph_raises env) ->
  exists e evs,
    ImpUrl.imp_url env a log = (Raise e, log ++ evs)
    /\ existsb is_mode evs = false /\ existsb is_dump evs = false.
Proof.
  intros H. destruct (imp_url_early_failure env a H) as (e & evs & Hr & Hm & Hd).
  exists e, evs. rewrite imp_url_log, Hr. by split.
Qed.

Lemma imp_url_stops_at_failed_check_witness :
  exists e evs,
    ImpUrl.imp_url imp_env_duplicate (imp_args false false false None) []
    = (Raise e, [] ++ evs)
    /\ existsb is_mode evs = false /\ existsb is_dump evs = false.
Proof.
  apply (imp_url_stops_at_failed_check imp_env_duplicate
           (imp_args false false false None) []).
  right. by eexists.
Defined.

Lemma imp_url_fs_config env a stage evs :
  ImpUrl.imp_url env a [] = (Ok stage, evs) ->
  ImpUrl.stage_fs_config stage
  = if ImpUrl.version_aware a
    then Some (<["version_aware" := true]> (default ∅ (ImpUrl.fs_config a)))
    else ImpUrl.fs_config a.
Proof.
  imp_unfold. imp_cases.
  all: first [discriminate | intros [= <- <-]; reflexivity].
Qed.

(** X22. A stage returned for a version-aware import carries a filesystem
    configuration in which [version_aware] is set and every other setting
    of the configuration that was passed is kept; otherwise it carries the
    configuration that was passed, untouched. *)
Theorem imp_url_version_aware_config env a log stage log' :
  ImpUrl.imp_url env a log = (Ok stage, log') ->
  (ImpUrl.version_aware a = true ->
   exists config,
     ImpUrl.stage_fs_config stage = Some config
     /\ config !! "version_aware" = Some true
     /\ forall k, k ≠ "version_aware" ->
                  config !! k = default ∅ (ImpUrl.fs_config a) !! k)
  /\ (ImpUrl.version_aware a = false ->
      ImpUrl.stage_fs_config stage = ImpUrl.fs_config a).
Proof.
  rewrite imp_url_log. intros H.
  destruct (ImpUrl.imp_url env a []) as [r evs] eqn:Hr. cbn [fst snd] in H.
  injection H as -> <-. rewrite (imp_url_fs_config env a stage evs Hr).
  split; intros ->; [|done].
  eexists. split; [reflexivity|]. split.
  - apply lookup_insert_eq.
  - intros k Hk. by rewrite lookup_insert_ne.
Qed.

Lemma imp_url_version_aware_config_witness :
  exists stage evs config,
    ImpUrl.imp_url imp_env_demo imp_args_versioned [] = (Ok stage, evs)
    /\ ImpUrl.stage_fs_config stage = Some config
    /\ config !! "version_aware" = Some true
    /\ config !! "anon" = Some true.
Proof.
  assert (Hr : exists stage evs,
             ImpUrl.imp_url imp_env_demo imp_args_versioned [] = (Ok stage, evs))
    by (eexists; eexists; vm_compute; reflexivity).
  destruct Hr as (stage & evs & Hr).
  destruct (proj1 (imp_url_version_aware_config _ _ _ _ _ Hr) eq_refl)
    as (config & Hc & Hva & Hkeep).
  exists stage, evs, config. split; [exact Hr|]. split; [exact Hc|].
  split; [exact Hva|]. rewrite Hkeep by discriminate. reflexivity.
Defined.
